(** * tractfinder: virtual tumour expansion helpers

    A shallow embedding of the coordinate utilities of
    [lib/tractfinder/utils.py] and of the surface and mask helpers of
    [virtue.py], with the properties the specification states about them.

    Numbers.  The coordinate changes are embedded twice.  [Np64],
    [Utils64] and [Virtue64] compute in double precision, as NumPy does:
    [float64] is IEEE 754 binary64 with its rounding, signed zeros,
    underflow, infinities and NaN; the trigonometric functions come from
    the mathematical library, a parameter of which only the values at the
    special arguments are fixed.  [Np], [Utils] and [Virtue] read the same
    formulas in exact arithmetic: a finite value is a real number, nothing
    is rounded and zero has no sign; the properties stated there are those
    of the control flow (call forms, argument counts, names) and what the
    formulas give without rounding.  Voxel coordinates are integers and
    the coordinates of mesh vertices and centroids are rationals.

    Libraries.  Calls into scikit-image and PyVista are parameters of the
    sections that model [surf_from_vol] and [simplify_vol]; what a theorem
    needs of them is a hypothesis of that theorem. *)

From Stdlib Require Import String List ZArith QArith Reals Lra Lia Bool.
From Stdlib Require Import Decimal DecimalString Ascii.
From Stdlib Require Floats.
Import ListNotations.

Close Scope Q_scope.
Close Scope R_scope.

(** ** Python exceptions and the result of a call *)

Module Py.

Inductive exn : Type :=
| AssertionError (msg : string)
| TypeError (msg : string)
| ValueError (msg : string)
| NameError (name : string)
| UnboundLocalError (name : string)
| AttributeError (name : string)
| IndexError (msg : string)
| ZeroDivisionError (msg : string).

(** The name of the class of the exception object. *)
Definition class_name (e : exn) : string :=
  match e with
  | AssertionError _ => "AssertionError"
  | TypeError _ => "TypeError"
  | ValueError _ => "ValueError"
  | NameError _ => "NameError"
  | UnboundLocalError _ => "UnboundLocalError"
  | AttributeError _ => "AttributeError"
  | IndexError _ => "IndexError"
  | ZeroDivisionError _ => "ZeroDivisionError"
  end.

(** [isinstance e cls] for the built-in classes: the class itself, or
    [NameError] for its subclass [UnboundLocalError]. *)
Definition isinstance (e : exn) (cls : string) : bool :=
  String.eqb (class_name e) cls
  || match e with
     | UnboundLocalError _ => String.eqb cls "NameError"
     | _ => false
     end.

Inductive result (A : Type) : Type :=
| Ok (a : A)
| Raise (e : exn).
Arguments Ok {A} a.
Arguments Raise {A} e.

Definition bind {A B : Type} (m : result A) (k : A -> result B) : result B :=
  match m with
  | Ok a => k a
  | Raise e => Raise e
  end.

Definition returns {A : Type} (m : result A) : bool :=
  match m with Ok _ => true | Raise _ => false end.

Fixpoint mapM {A B : Type} (f : A -> result B) (xs : list A) : result (list B) :=
  match xs with
  | [] => Ok []
  | x :: xs' =>
      bind (f x) (fun y => bind (mapM f xs') (fun ys => Ok (y :: ys)))
  end.

(** [str(n)] of a non-negative integer. *)
Definition str_of_nat (n : nat) : string :=
  NilEmpty.string_of_uint (Nat.to_uint n).

End Py.

Import Py.

Declare Scope py_scope.
Delimit Scope py_scope with py.
Notation "x <- m ;; k" := (bind m (fun x => k))
  (at level 61, m at next level, right associativity) : py_scope.
Notation "m ;;; k" := (bind m (fun _ => k))
  (at level 61, right associativity) : py_scope.

(** ** NumPy in exact arithmetic: float64 values, arrays of at most two
    dimensions, broadcasting *)

Module Np.

Local Open Scope R_scope.

Inductive float64 : Type :=
| Fin (r : R)
| Inf (negative : bool)
| NaN.

Definition Rltb (x y : R) : bool := if Rlt_dec x y then true else false.
Definition Rleb (x y : R) : bool := if Rle_dec x y then true else false.
Definition Reqb (x y : R) : bool := if Req_dec_T x y then true else false.

Definition isnan (a : float64) : bool :=
  match a with NaN => true | _ => false end.

(** [a == 0] *)
Definition is_zero (a : float64) : bool :=
  match a with Fin x => Reqb x 0 | _ => false end.

Definition f_add (a b : float64) : float64 :=
  match a, b with
  | NaN, _ | _, NaN => NaN
  | Fin x, Fin y => Fin (x + y)
  | Inf s, Fin _ => Inf s
  | Fin _, Inf s => Inf s
  | Inf s, Inf t => if Bool.eqb s t then Inf s else NaN
  end.

Definition f_neg (a : float64) : float64 :=
  match a with
  | Fin x => Fin (- x)
  | Inf s => Inf (negb s)
  | NaN => NaN
  end.

Definition f_sub (a b : float64) : float64 :=
  match a, b with
  | Fin x, Fin y => Fin (x - y)
  | _, _ => f_add a (f_neg b)
  end.

Definition f_mul (a b : float64) : float64 :=
  match a, b with
  | NaN, _ | _, NaN => NaN
  | Fin x, Fin y => Fin (x * y)
  | Inf s, Fin y => if Reqb y 0 then NaN else Inf (xorb s (Rltb y 0))
  | Fin x, Inf s => if Reqb x 0 then NaN else Inf (xorb s (Rltb x 0))
  | Inf s, Inf t => Inf (xorb s t)
  end.

(** True division; a division by zero gives an infinity or NaN (with a
    RuntimeWarning), it does not raise. *)
Definition f_div (a b : float64) : float64 :=
  match a, b with
  | NaN, _ | _, NaN => NaN
  | Fin x, Fin y =>
      if Reqb y 0
      then (if Reqb x 0 then NaN else Inf (Rltb x 0))
      else Fin (x / y)
  | Fin _, Inf _ => Fin 0
  | Inf s, Fin y => Inf (xorb s (Rltb y 0))
  | Inf _, Inf _ => NaN
  end.

(** [a**2] *)
Definition f_square (a : float64) : float64 := f_mul a a.

Definition f_sqrt (a : float64) : float64 :=
  match a with
  | Fin x => if Rltb x 0 then NaN else Fin (sqrt x)
  | Inf false => Inf false
  | Inf true => NaN
  | NaN => NaN
  end.

Definition f_sin (a : float64) : float64 :=
  match a with Fin x => Fin (sin x) | _ => NaN end.

Definition f_cos (a : float64) : float64 :=
  match a with Fin x => Fin (cos x) | _ => NaN end.

Definition f_arccos (a : float64) : float64 :=
  match a with
  | Fin x => if Rleb (-1) x && Rleb x 1 then Fin (acos x) else NaN
  | _ => NaN
  end.

(** The angle of the point [(x, y)], in (-PI, PI]; 0 at the origin. *)
Definition atan2 (y x : R) : R :=
  if Rltb 0 x then atan (y / x)
  else if Rltb x 0 then
         (if Rleb 0 y then atan (y / x) + PI else atan (y / x) - PI)
  else if Rltb 0 y then PI / 2
  else if Rltb y 0 then - (PI / 2)
  else 0.

Definition f_arctan2 (a b : float64) : float64 :=
  match a, b with
  | NaN, _ | _, NaN => NaN
  | Fin y, Fin x => Fin (atan2 y x)
  | Fin y, Inf false => Fin 0
  | Fin y, Inf true => if Rltb y 0 then Fin (- PI) else Fin PI
  | Inf s, Fin _ => if s then Fin (- (PI / 2)) else Fin (PI / 2)
  | Inf s, Inf false => if s then Fin (- (PI / 4)) else Fin (PI / 4)
  | Inf s, Inf true => if s then Fin (- (3 * PI / 4)) else Fin (3 * PI / 4)
  end.

(** An array of dimension 0, 1 or 2.  A [Arr2 ncols rows] is well formed
    when every row has [ncols] elements. *)
Inductive ndarray : Type :=
| Arr0 (x : float64)
| Arr1 (xs : list float64)
| Arr2 (ncols : nat) (rows : list (list float64)).

Definition np_map (f : float64 -> float64) (a : ndarray) : ndarray :=
  match a with
  | Arr0 x => Arr0 (f x)
  | Arr1 xs => Arr1 (map f xs)
  | Arr2 n rows => Arr2 n (map (map f) rows)
  end.

Definition broadcast_error : exn :=
  ValueError "operands could not be broadcast together".

(** The length of a broadcast axis: equal lengths, or one of them is 1. *)
Definition bdim (n m : nat) : result nat :=
  if Nat.eqb n m then Ok n
  else if Nat.eqb n 1 then Ok m
  else if Nat.eqb m 1 then Ok n
  else Raise broadcast_error.

Fixpoint zipM {A B C : Type} (g : A -> B -> result C)
  (xs : list A) (ys : list B) : result (list C) :=
  match xs, ys with
  | x :: xs', y :: ys' =>
      bind (g x y) (fun z => bind (zipM g xs' ys') (fun zs => Ok (z :: zs)))
  | _, _ => Ok []
  end.

(** Broadcasting along one axis. *)
Definition bcast {A B C : Type} (g : A -> B -> result C)
  (xs : list A) (ys : list B) : result (list C) :=
  if Nat.eqb (length xs) (length ys) then zipM g xs ys
  else match xs, ys with
       | [x], _ => mapM (g x) ys
       | _, [y] => mapM (fun x => g x y) xs
       | _, _ => Raise broadcast_error
       end.

Definition bcast1 (f : float64 -> float64 -> float64)
  (xs ys : list float64) : result (list float64) :=
  bcast (fun x y => Ok (f x y)) xs ys.

Definition bcast2 (f : float64 -> float64 -> float64)
  (n : nat) (rows : list (list float64))
  (m : nat) (rows' : list (list float64)) : result ndarray :=
  bind (bdim n m) (fun k =>
  bind (bcast (bcast1 f) rows rows') (fun out => Ok (Arr2 k out))).

(** An elementwise binary operation. *)
Definition np_binop (f : float64 -> float64 -> float64)
  (a b : ndarray) : result ndarray :=
  match a, b with
  | Arr0 x, Arr0 y => Ok (Arr0 (f x y))
  | Arr0 x, Arr1 ys => Ok (Arr1 (map (f x) ys))
  | Arr1 xs, Arr0 y => Ok (Arr1 (map (fun x => f x y) xs))
  | Arr1 xs, Arr1 ys => bind (bcast1 f xs ys) (fun zs => Ok (Arr1 zs))
  | Arr0 x, Arr2 m rows => Ok (Arr2 m (map (map (f x)) rows))
  | Arr2 n rows, Arr0 y => Ok (Arr2 n (map (map (fun x => f x y)) rows))
  | Arr1 xs, Arr2 m rows => bcast2 f (length xs) [xs] m rows
  | Arr2 n rows, Arr1 ys => bcast2 f n rows (length ys) [ys]
  | Arr2 n rows, Arr2 m rows' => bcast2 f n rows m rows'
  end.

Definition np_add := np_binop f_add.
Definition np_sub := np_binop f_sub.
Definition np_mul := np_binop f_mul.
Definition np_div := np_binop f_div.
Definition np_arctan2 := np_binop f_arctan2.
Definition np_square := np_map f_square.
Definition np_sqrt := np_map f_sqrt.
Definition np_sin := np_map f_sin.
Definition np_cos := np_map f_cos.
Definition np_arccos := np_map f_arccos.

(** Columns of a two-dimensional array: [A[:, j]] and [A[:, j] = v]. *)
Definition column (j : nat) (rows : list (list float64)) : list float64 :=
  map (fun row => nth j row (Fin 0)) rows.

Fixpoint set_nth (j : nat) (x : float64) (row : list float64) : list float64 :=
  match j, row with
  | _, [] => []
  | O, _ :: t => x :: t
  | S j', h :: t => h :: set_nth j' x t
  end.

Fixpoint set_column (j : nat) (v : list float64) (rows : list (list float64))
  : list (list float64) :=
  match v, rows with
  | x :: v', row :: rows' => set_nth j x row :: set_column j v' rows'
  | _, _ => rows
  end.

(** [np.zeros((n, ncols))] *)
Definition zeros (n ncols : nat) : list (list float64) :=
  repeat (repeat (Fin 0) ncols) n.

(** [np.sum(A, axis=1)] *)
Definition sum_axis1 (rows : list (list float64)) : list float64 :=
  map (fun row => fold_left f_add row (Fin 0)) rows.

Fixpoint map2 {A B C : Type} (f : A -> B -> C) (xs : list A) (ys : list B)
  : list C :=
  match xs, ys with
  | x :: xs', y :: ys' => f x y :: map2 f xs' ys'
  | _, _ => []
  end.

(** [np.where(mask)[0]]: the indices at which a one-dimensional mask holds. *)
Fixpoint where_from (i : nat) (p : float64 -> bool) (xs : list float64)
  : list nat :=
  match xs with
  | [] => []
  | x :: xs' => if p x then i :: where_from (S i) p xs' else where_from (S i) p xs'
  end.

Definition where_ (p : float64 -> bool) (xs : list float64) : list nat :=
  where_from 0 p xs.

(** [np.sum(mask)]: how many elements satisfy the mask. *)
Definition count (p : float64 -> bool) (xs : list float64) : nat :=
  length (filter p xs).

(** [bool(a)] of an array of booleans: the element of a one-element array;
    an array of several elements has no truth value; an empty array is
    false (NumPy 1.x, with a DeprecationWarning). *)
Definition truth_value (bs : list bool) : result bool :=
  match bs with
  | [] => Ok false
  | [b] => Ok b
  | _ => Raise (ValueError
      "The truth value of an array with more than one element is ambiguous. Use a.any() or a.all()")
  end.

(** [np.where(m1) == np.where(m2)]: the two sides are one-element tuples of
    index arrays, so Python compares the two arrays with [==], which is
    elementwise (index arrays that cannot be broadcast raise, as from
    NumPy 1.25), and takes the truth value of the resulting array. *)
Definition where_tuples_equal (a b : list nat) : result bool :=
  bind (bcast (fun i j => Ok (Nat.eqb i j)) a b) truth_value.

End Np.

Import Np.

(** What a call returns: an array, a tuple of three arrays, or [None]. *)
Inductive pyval : Type :=
| VArray (a : ndarray)
| VTuple3 (a b c : ndarray)
| VNone.

(** ** lib/tractfinder/utils.py, read in exact arithmetic *)

Module Utils.

Local Open Scope py_scope.
Local Open Scope string_scope.

(** [ang(azA, polA, azB, polB, dtype=None)]: the angle between two polar
    points.  The [dtype] argument only selects the precision of the
    ufuncs, which the idealised numbers do not have. *)
Definition ang (azA polA azB polB : ndarray) : result ndarray :=
  ss <- np_mul (np_sin polA) (np_sin polB) ;;
  d <- np_sub azA azB ;;
  ssc <- np_mul ss (np_cos d) ;;
  cc <- np_mul (np_cos polA) (np_cos polB) ;;
  s <- np_add ssc cc ;;
  Ok (np_arccos s).

Definition nan_message (n : nat) : string :=
  " " ++ str_of_nat n
  ++ " nan detected in S[:,1] in utils.c2s function. Let's substitute it with 0.1".

Definition nan_assert_message : string :=
  "I have nan, that are not in correspondance of a Radius=0 (in the center of the spheric coordinates origin)".

(** The mock angle written over a NaN elevation. *)
Definition mock_angle : float64 := Fin 0.1%R.

(** [S[:,0] = np.sqrt(np.sum(C**2, axis=1))] and
    [S[:,1] = np.arccos(C[:,2]/S[:,0])] on [S = np.zeros(C.shape)]. *)
Definition c2s_radius_elevation (rows : list (list float64))
  : list (list float64) :=
  let S := zeros (length rows) 3 in
  let S := set_column 0 (map f_sqrt (sum_axis1 (map (map f_square) rows))) S in
  set_column 1 (map f_arccos (map2 f_div (column 2 rows) (column 0 S))) S.

(** [S[:,2] = np.arctan2(C[:,1], C[:,0])] *)
Definition c2s_azimuth (rows S : list (list float64)) : list (list float64) :=
  set_column 2 (map2 f_arctan2 (column 1 rows) (column 0 rows)) S.

(** [c2s], on the tuple of its positional arguments: the lines printed
    and the result. *)
Definition c2s (args : list ndarray) : list string * result pyval :=
  match args with
  | [C] =>
      match C with
      | Arr2 3 rows =>
          let S := c2s_radius_elevation rows in
          if existsb isnan (column 1 S) then
            let out := [nan_message (count isnan (column 1 S))] in
            match where_tuples_equal (where_ isnan (column 1 S))
                                     (where_ is_zero (column 0 S)) with
            | Raise e => (out, Raise e)
            | Ok false => (out, Raise (AssertionError nan_assert_message))
            | Ok true =>
                let S := set_column 1
                  (map (fun x => if isnan x then mock_angle else x) (column 1 S)) S in
                (out, Ok (VArray (Arr2 3 (c2s_azimuth rows S))))
            end
          else ([], Ok (VArray (Arr2 3 (c2s_azimuth rows S))))
      | _ => ([], Raise (AssertionError ""))
      end
  | [X; Y; Z] =>
      ([], xy <- np_add (np_square X) (np_square Y) ;;
           xyz <- np_add xy (np_square Z) ;;
           let rho := np_sqrt xyz in
           q <- np_div Z rho ;;
           let el := np_arccos q in
           az <- np_arctan2 Y X ;;
           Ok (VTuple3 rho el az))
  | _ => ([], Raise (TypeError "Supply either 1 or 3 inputs"))
  end.

(** [s2c], on the tuple of its positional arguments.  A call with no argument or with more than three falls
    through every branch and returns [None]. *)
Definition s2c (args : list ndarray) : result pyval :=
  match args with
  | [S_] =>
      match S_ with
      | Arr2 3 rows =>
          let C := zeros (length rows) 3 in
          let sin_el := map f_sin (column 1 rows) in
          let cos_el := map f_cos (column 1 rows) in
          let sin_az := map f_sin (column 2 rows) in
          let cos_az := map f_cos (column 2 rows) in
          let C := set_column 0
            (map2 f_mul (map2 f_mul (column 0 rows) sin_el) cos_az) C in
          let C := set_column 1
            (map2 f_mul (map2 f_mul (column 0 rows) sin_el) sin_az) C in
          let C := set_column 2 (map2 f_mul (column 0 rows) cos_el) C in
          Ok (VArray (Arr2 3 C))
      | Arr2 2 rows =>
          let C := zeros (length rows) 3 in
          let sin_el := map f_sin (column 0 rows) in
          let cos_el := map f_cos (column 0 rows) in
          let sin_az := map f_sin (column 1 rows) in
          let cos_az := map f_cos (column 1 rows) in
          let C := set_column 0 (map2 f_mul sin_el cos_az) C in
          let C := set_column 1 (map2 f_mul sin_el sin_az) C in
          let C := set_column 2 cos_el C in
          Ok (VArray (Arr2 3 C))
      | Arr2 _ _ =>
          Raise (ValueError
            "Second dimension must have length 2 (if only supplying angles) or 3")
      | _ => Raise (AssertionError "")
      end
  | [El; Az] =>
      X <- np_mul (np_sin El) (np_cos Az) ;;
      Y <- np_mul (np_sin El) (np_sin Az) ;;
      let Z := np_cos El in
      Ok (VTuple3 X Y Z)
  | [R; El; Az] =>
      rs <- np_mul R (np_sin El) ;;
      X <- np_mul rs (np_cos Az) ;;
      rs' <- np_mul R (np_sin El) ;;
      Y <- np_mul rs' (np_sin Az) ;;
      Z <- np_mul R (np_cos El) ;;
      Ok (VTuple3 X Y Z)
  | _ => Ok VNone
  end.

End Utils.

(** ** virtue.py: names, coordinates, the growth stub *)

Module Virtue.

Local Open Scope py_scope.
Local Open Scope string_scope.

(** *** Name resolution

    A function body looks a free name up in the globals of its module and
    then in the builtins; a name found in neither raises [NameError]. *)

#[warnings="-register-all"]
Inductive pyobj : Type :=
| PModule (name : string) (attrs : list (string * pyobj))
| PUfunc (f : float64 -> float64)
| POther (descr : string).

Definition namespace : Type := list (string * pyobj).

Fixpoint lookup (name : string) (ns : namespace) : option pyobj :=
  match ns with
  | [] => None
  | (k, v) :: ns' => if String.eqb k name then Some v else lookup name ns'
  end.

(** The functions and constants of the [builtins] module. *)
Definition builtins : list string :=
  [ "abs"; "aiter"; "all"; "anext"; "any"; "ascii"; "bin"; "bool";
    "breakpoint"; "bytearray"; "bytes"; "callable"; "chr"; "classmethod";
    "compile"; "complex"; "delattr"; "dict"; "dir"; "divmod"; "enumerate";
    "eval"; "exec"; "filter"; "float"; "format"; "frozenset"; "getattr";
    "globals"; "hasattr"; "hash"; "help"; "hex"; "id"; "input"; "int";
    "isinstance"; "issubclass"; "iter"; "len"; "list"; "locals"; "map";
    "max"; "memoryview"; "min"; "next"; "object"; "oct"; "open"; "ord";
    "pow"; "print"; "property"; "range"; "repr"; "reversed"; "round"; "set";
    "setattr"; "slice"; "sorted"; "staticmethod"; "str"; "sum"; "super";
    "tuple"; "type"; "vars"; "zip"; "__import__";
    "None"; "True"; "False"; "Ellipsis"; "NotImplemented"; "__debug__" ].

Definition load_global (g : namespace) (name : string) : result pyobj :=
  match lookup name g with
  | Some o => Ok o
  | None =>
      if existsb (String.eqb name) builtins then Ok (POther name)
      else Raise (NameError name)
  end.

Definition getattr (o : pyobj) (name : string) : result pyobj :=
  match o with
  | PModule _ attrs =>
      match lookup name attrs with
      | Some a => Ok a
      | None => Raise (AttributeError name)
      end
  | _ => Raise (AttributeError name)
  end.

(** A call with one array argument. *)
Definition call (o : pyobj) (a : ndarray) : result ndarray :=
  match o with
  | PUfunc f => Ok (np_map f a)
  | _ => Raise (TypeError "object is not callable")
  end.

(** The [numpy] module, as far as the functions here use it. *)
Definition numpy : pyobj :=
  PModule "numpy"
    [ ("sqrt", PUfunc f_sqrt); ("sin", PUfunc f_sin); ("cos", PUfunc f_cos);
      ("arccos", PUfunc f_arccos);
      ("arctan2", POther "ufunc"); ("sum", POther "function");
      ("zeros", POther "function"); ("ones", POther "function");
      ("argmax", POther "function"); ("squeeze", POther "function");
      ("c_", POther "CClass"); ("linalg", POther "module") ].

(** The globals of [virtue.py] once the module body has run: the names
    bound by its [import] statements and by its [def]s. *)
Definition module_globals : namespace :=
  [ ("argparse", POther "module"); ("sys", POther "module");
    ("os", POther "module"); ("np", numpy); ("nib", POther "module");
    ("skimage", POther "module"); ("measure", POther "module");
    ("morphology", POther "module"); ("gaussian", POther "function");
    ("load_mrtrix", POther "function"); ("save_mrtrix", POther "function");
    ("plt", POther "module"); ("Poly3DCollection", POther "class");
    ("pv", POther "module");
    ("c2s", POther "function"); ("s2c", POther "function");
    ("grow", POther "function"); ("ang", POther "function");
    ("decimate_surf", POther "function"); ("surf_from_vol", POther "function");
    ("simplify_vol", POther "function"); ("load_generic", POther "function");
    ("parse_args", POther "function"); ("main", POther "function") ].

(** [ang(azA, polA, azB, polB)], evaluated left to right in the globals
    [g]: the callee [np.arccos] first, then its argument. *)
Definition ang_in (g : namespace) (azA polA azB polB : ndarray)
  : result ndarray :=
  np <- load_global g "np" ;;
  arccos <- getattr np "arccos" ;;
  sin1 <- load_global g "sin" ;;
  a <- call sin1 polA ;;
  sin2 <- load_global g "sin" ;;
  b <- call sin2 polB ;;
  ss <- np_mul a b ;;
  cos1 <- load_global g "cos" ;;
  d <- np_sub azA azB ;;
  c <- call cos1 d ;;
  ssc <- np_mul ss c ;;
  cos2 <- load_global g "cos" ;;
  ca <- call cos2 polA ;;
  cos3 <- load_global g "cos" ;;
  cb <- call cos3 polB ;;
  cc <- np_mul ca cb ;;
  s <- np_add ssc cc ;;
  call arccos s.

Definition ang : ndarray -> ndarray -> ndarray -> ndarray -> result ndarray :=
  ang_in module_globals.

(** [c2s], on the tuple of its positional arguments.  This copy has no
    treatment of NaN. *)
Definition c2s (args : list ndarray) : result pyval :=
  match args with
  | [C] =>
      match C with
      | Arr2 3 rows =>
          let S := zeros (length rows) 3 in
          let S := set_column 0
            (map f_sqrt (sum_axis1 (map (map f_square) rows))) S in
          let S := set_column 1
            (map f_arccos (map2 f_div (column 2 rows) (column 0 S))) S in
          let S := set_column 2
            (map2 f_arctan2 (column 1 rows) (column 0 rows)) S in
          Ok (VArray (Arr2 3 S))
      | _ => Raise (AssertionError "")
      end
  | [X; Y; Z] =>
      xy <- np_add (np_square X) (np_square Y) ;;
      xyz <- np_add xy (np_square Z) ;;
      let rho := np_sqrt xyz in
      q <- np_div Z rho ;;
      let el := np_arccos q in
      az <- np_arctan2 Y X ;;
      Ok (VTuple3 rho el az)
  | _ => Raise (TypeError "Supply either 1 or 3 inputs")
  end.

(** [s2c], on the tuple of its positional arguments. *)
Definition s2c (args : list ndarray) : result pyval :=
  match args with
  | [S_] =>
      match S_ with
      | Arr2 3 rows =>
          let C := zeros (length rows) 3 in
          let sin_el := map f_sin (column 1 rows) in
          let cos_el := map f_cos (column 1 rows) in
          let sin_az := map f_sin (column 2 rows) in
          let cos_az := map f_cos (column 2 rows) in
          let C := set_column 0
            (map2 f_mul (map2 f_mul (column 0 rows) sin_el) cos_az) C in
          let C := set_column 1
            (map2 f_mul (map2 f_mul (column 0 rows) sin_el) sin_az) C in
          let C := set_column 2 (map2 f_mul (column 0 rows) cos_el) C in
          Ok (VArray (Arr2 3 C))
      | Arr2 2 rows =>
          let C := zeros (length rows) 3 in
          let sin_el := map f_sin (column 0 rows) in
          let cos_el := map f_cos (column 0 rows) in
          let sin_az := map f_sin (column 1 rows) in
          let cos_az := map f_cos (column 1 rows) in
          let C := set_column 0 (map2 f_mul sin_el cos_az) C in
          let C := set_column 1 (map2 f_mul sin_el sin_az) C in
          let C := set_column 2 cos_el C in
          Ok (VArray (Arr2 3 C))
      | Arr2 _ _ =>
          Raise (ValueError
            "Second dimension must have length 2 (if only supplying angles) or 3")
      | _ => Raise (AssertionError "")
      end
  | [El; Az] =>
      X <- np_mul (np_sin El) (np_cos Az) ;;
      Y <- np_mul (np_sin El) (np_sin Az) ;;
      let Z := np_cos El in
      Ok (VTuple3 X Y Z)
  | [R; El; Az] =>
      rs <- np_mul R (np_sin El) ;;
      X <- np_mul rs (np_cos Az) ;;
      rs' <- np_mul R (np_sin El) ;;
      Y <- np_mul rs' (np_sin Az) ;;
      Z <- np_mul R (np_cos El) ;;
      Ok (VTuple3 X Y Z)
  | _ => Ok VNone
  end.

(** *** Volumes, masks and meshes *)

Definition voxel : Type := (Z * Z * Z)%type.
Definition point : Type := (Q * Q * Q)%type.

(** An image volume gives every voxel a value; a mask is a boolean one. *)
Definition volume : Type := voxel -> Q.
Definition mask : Type := voxel -> bool.

Definition voxel_eqb (a b : voxel) : bool :=
  let '(a0, a1, a2) := a in
  let '(b0, b1, b2) := b in
  ((a0 =? b0) && (a1 =? b1) && (a2 =? b2))%Z.

Definition voxel_add (a b : voxel) : voxel :=
  let '(a0, a1, a2) := a in
  let '(b0, b1, b2) := b in
  (a0 + b0, a1 + b1, a2 + b2)%Z.

Definition voxel_sub (a b : voxel) : voxel :=
  let '(a0, a1, a2) := a in
  let '(b0, b1, b2) := b in
  (a0 - b0, a1 - b1, a2 - b2)%Z.

(** [grow(image, tumour_mask, brain_mask, lookup=None)]: the body is a
    docstring, comments and a bare [return]. *)
Definition grow {L : Type} (image tumour_mask brain_mask : volume)
  (lookup : option L) : pyval := VNone.

(** The truth value of an optional integer argument: [None] and 0 are false. *)
Definition truthy (n : option Z) : bool :=
  match n with
  | None => false
  | Some k => negb (k =? 0)%Z
  end.

(** A PyVista mesh: its points and its cells (each a list of point
    indices).  [faces] is the padded connectivity array, every cell
    preceded by its number of points. *)
Record mesh : Type := mk_mesh { points : list point; cells : list (list Z) }.

Definition n_faces (m : mesh) : nat := length (cells m).

Definition faces (m : mesh) : list Z :=
  concat (map (fun c => Z.of_nat (length c) :: c) (cells m)).

Fixpoint parse_cells (fuel : nat) (flat : list Z) : list (list Z) :=
  match fuel with
  | O => []
  | S fuel' =>
      match flat with
      | [] => []
      | n :: rest =>
          firstn (Z.to_nat n) rest :: parse_cells fuel' (skipn (Z.to_nat n) rest)
      end
  end.

(** [pv.PolyData(V, padded)] with [padded] a two-dimensional array, which
    is read row after row. *)
Definition PolyData (V : list point) (padded : list (list Z)) : mesh :=
  let flat := concat padded in
  mk_mesh V (parse_cells (length flat) flat).

(** [np.c_[3*np.ones((F.shape[0],1)), F].astype(int)] *)
Definition pad_faces (F : list (list Z)) : list (list Z) :=
  map (fun f => 3%Z :: f) F.

(** [a.reshape(-1, 4)] of a one-dimensional array. *)
Fixpoint reshape4_rows (fuel : nat) (a : list Z) : list (list Z) :=
  match fuel with
  | O => []
  | S fuel' =>
      match a with
      | [] => []
      | _ => firstn 4 a :: reshape4_rows fuel' (skipn 4 a)
      end
  end.

Definition reshape4 (a : list Z) : result (list (list Z)) :=
  if (Nat.modulo (length a) 4 =? 0)%nat
  then Ok (reshape4_rows (length a) a)
  else Raise (ValueError
    ("cannot reshape array of size " ++ str_of_nat (length a) ++ " into shape (4)")).

(** [V[k]]: a negative index counts from the end. *)
Definition index_point (V : list point) (k : Z) : result point :=
  let n := Z.of_nat (length V) in
  let k' := (if k <? 0 then k + n else k)%Z in
  if ((0 <=? k') && (k' <? n))%Z then
    match nth_error V (Z.to_nat k') with
    | Some p => Ok p
    | None => Raise (IndexError "index out of bounds")
    end
  else Raise (IndexError "index out of bounds").

Definition point_add (p q : point) : point :=
  let '(p0, p1, p2) := p in
  let '(q0, q1, q2) := q in
  (p0 + q0, p1 + q1, p2 + q2)%Q.

Definition point_div (p : point) (d : Q) : point :=
  let '(p0, p1, p2) := p in (p0 / d, p1 / d, p2 / d)%Q.

(** [np.sum(V[f], axis=0) / 3] for one face [f]. *)
Definition face_centroid (V : list point) (f : list Z) : result point :=
  ps <- mapM (index_point V) f ;;
  Ok (point_div (fold_left point_add ps (0, 0, 0)%Q) 3%Q).

(** The centroid array after [np.squeeze]: one row per face, or the bare
    point when there is exactly one face. *)
Inductive centroid_array : Type :=
| CRows (ps : list point)
| CPoint (p : point).

Definition squeeze (ps : list point) : centroid_array :=
  match ps with
  | [p] => CPoint p
  | _ => CRows ps
  end.

(** A call into a library, in the order the calls are made. *)
Inductive libcall : Type :=
| call_gaussian (sigma : Q)
| call_marching_cubes (level : Q) (step_size : Z)
| call_decimate (nfaces : nat) (target_reduction : Q).

Definition traced (A : Type) : Type := (list libcall * result A)%type.

Definition tbind {A B : Type} (m : traced A) (k : A -> traced B) : traced B :=
  match m with
  | (log, Ok a) => let '(log', r) := k a in ((log ++ log')%list, r)
  | (log, Raise e) => (log, Raise e)
  end.

Definition tcall {A : Type} (c : libcall) (r : result A) : traced A := ([c], r).
Definition tret {A : Type} (a : A) : traced A := ([], Ok a).
Definition tlift {A : Type} (r : result A) : traced A := ([], r).

(** [(mesh.n_faces - target_nfaces) / mesh.n_faces] *)
Definition reduction_for_target (n : nat) (target : Z) : result Q :=
  if (n =? 0)%nat then Raise (ZeroDivisionError "division by zero")
  else Ok ((inject_Z (Z.of_nat n - target)) / inject_Z (Z.of_nat n))%Q.

(** The value of [target_reduction] after
    [if target_nfaces: target_reduction = ...], for a mesh of [n] faces. *)
Definition choose_reduction (n : nat) (target_reduction : Q)
  (target_nfaces : option Z) : result Q :=
  match target_nfaces with
  | Some t =>
      if truthy target_nfaces then reduction_for_target n t
      else Ok target_reduction
  | None => Ok target_reduction
  end.

Section Surface.

(** scikit-image's [gaussian] and [measure.marching_cubes], and PyVista's
    [decimate]. *)
Variable gaussian : volume -> Q -> volume.
Variable marching_cubes :
  volume -> Q -> Z -> result (list point * list (list Z)).
Variable decimate : mesh -> Q -> result mesh.

(** [surf_from_vol(vol, sigma=1, target_reduction=0.8, target_nfaces=None)] *)
Definition surf_from_vol (vol : volume) (sigma : Q) (target_reduction : Q)
  (target_nfaces : option Z)
  : traced (list (list Z) * list point * centroid_array) :=
  let smoothed := gaussian vol sigma in
  tbind (tcall (call_gaussian sigma) (Ok tt)) (fun _ =>
  tbind (tcall (call_marching_cubes (1 # 2) 1)
               (marching_cubes smoothed (1 # 2) 1)) (fun VF =>
  let '(V, F) := VF in
  let mesh := PolyData V (pad_faces F) in
  tbind (tlift (choose_reduction (n_faces mesh) target_reduction target_nfaces))
        (fun target_reduction =>
  tbind (tcall (call_decimate (n_faces mesh) target_reduction)
               (decimate mesh target_reduction)) (fun decimated =>
  let V := points decimated in
  tbind (tlift (reshape4 (faces decimated))) (fun rows =>
  let F := map (@tl Z) rows in
  tbind (tlift (mapM (face_centroid V) F)) (fun cs =>
  tret (F, V, squeeze cs))))))).

End Surface.

(** The default arguments of [surf_from_vol]. *)
Definition default_sigma : Q := 1.
Definition default_target_reduction : Q := 8 # 10.

(** *** Connected components and their properties *)

(** The label image of [measure.label]: the voxels of every connected
    component, in label order; the component at position [k] carries the
    label [k + 1] and every other voxel the label 0. *)
Definition label_image : Type := list (list voxel).

Fixpoint label_from (k : nat) (ll : label_image) (v : voxel) : nat :=
  match ll with
  | [] => 0
  | c :: ll' => if existsb (voxel_eqb v) c then k else label_from (S k) ll' v
  end.

Definition label_at (ll : label_image) (v : voxel) : nat := label_from 1 ll v.

Definition coord (k : nat) (v : voxel) : Z :=
  match k with
  | O => fst (fst v)
  | S O => snd (fst v)
  | _ => snd v
  end.

Definition min_coord (k : nat) (c : list voxel) : Z :=
  match map (coord k) c with
  | [] => 0%Z
  | h :: t => fold_left Z.min t h
  end.

Definition max_coord (k : nat) (c : list voxel) : Z :=
  match map (coord k) c with
  | [] => 0%Z
  | h :: t => fold_left Z.max t h
  end.

Definition mean_coord (k : nat) (c : list voxel) : Q :=
  (inject_Z (fold_left Z.add (map (coord k) c) 0%Z)
   / inject_Z (Z.of_nat (length c)))%Q.

(** A region of [measure.regionprops]: the voxels that carry its label. *)
Record region : Type := mk_region { coords : list voxel }.

(** [r.area]: the number of voxels of the region. *)
Definition area (r : region) : Z := Z.of_nat (length (coords r)).

(** [r.centroid]: the mean of the voxel coordinates. *)
Definition centroid (r : region) : point :=
  (mean_coord 0 (coords r), mean_coord 1 (coords r), mean_coord 2 (coords r)).

(** [r.bbox]: the half-open bounding box
    [(min0, min1, min2, max0 + 1, max1 + 1, max2 + 1)]. *)
Definition bbox (r : region) : voxel * voxel :=
  ((min_coord 0 (coords r), min_coord 1 (coords r), min_coord 2 (coords r)),
   (max_coord 0 (coords r) + 1, max_coord 1 (coords r) + 1,
    max_coord 2 (coords r) + 1)%Z).

Definition in_bbox (b : voxel * voxel) (v : voxel) : bool :=
  let '((l0, l1, l2), (h0, h1, h2)) := b in
  let '(v0, v1, v2) := v in
  ((l0 <=? v0) && (v0 <? h0) && (l1 <=? v1) && (v1 <? h1)
   && (l2 <=? v2) && (v2 <? h2))%Z.

(** A point with rational coordinates lies in the box. *)
Definition point_in_bbox (b : voxel * voxel) (p : point) : Prop :=
  let '((l0, l1, l2), (h0, h1, h2)) := b in
  let '(p0, p1, p2) := p in
  (inject_Z l0 <= p0 /\ p0 < inject_Z h0
   /\ inject_Z l1 <= p1 /\ p1 < inject_Z h1
   /\ inject_Z l2 <= p2 /\ p2 < inject_Z h2)%Q.

(** [r.image]: the region inside its bounding box, indexed from the
    corner of the box. *)
Definition image (r : region) : mask :=
  fun v => existsb (voxel_eqb (voxel_add v (fst (bbox r)))) (coords r).

Definition regionprops (ll : label_image) : list region := map mk_region ll.

(** [np.argmax(xs)]: the first position of the maximum. *)
Fixpoint argmax_from (i best_i : nat) (best : Z) (xs : list Z) : nat :=
  match xs with
  | [] => best_i
  | x :: xs' =>
      if (best <? x)%Z then argmax_from (S i) i x xs'
      else argmax_from (S i) best_i best xs'
  end.

Definition argmax (xs : list Z) : result nat :=
  match xs with
  | [] => Raise (ValueError "attempt to get argmax of an empty sequence")
  | x :: xs' => Ok (argmax_from 1 0 x xs')
  end.

(** Reading a local variable that no assignment has bound yet. *)
Definition load_fast {A : Type} (name : string) (local : option A) : result A :=
  match local with
  | Some a => Ok a
  | None => Raise (UnboundLocalError name)
  end.

(** [out[b[0]:b[3], b[1]:b[4], b[2]:b[5]] = img] *)
Definition assign_box (b : voxel * voxel) (img : mask) (out : mask) : mask :=
  fun v => if in_bbox b v then img (voxel_sub v (fst b)) else out v.

Section Simplify.

(** scikit-image's [measure.label] and [morphology.convex_hull_image]
    (behind the [convex_image] property of a region). *)
Variable label : volume -> label_image.
Variable convex_hull_image : mask -> mask.

Definition convex_image (r : region) : mask := convex_hull_image (image r).

Definition flags_message : string :=
  "At least one of convex_hull and largest_object options must be true".

(** [simplify_vol(vol, convex_hull=True, largest_object=True)] *)
Definition simplify_vol (vol : volume) (convex_hull largest_object : bool)
  : result (mask * point) :=
  (if negb (convex_hull || largest_object)
   then Raise (ValueError flags_message) else Ok tt) ;;;
  let ll := label vol in
  let cc := regionprops ll in
  i <- argmax (map area cc) ;;
  match nth_error cc i with
  | None => Raise (IndexError "list index out of range")
  | Some cc_i =>
      let '(x, y, z) := centroid cc_i in
      let out : option mask :=
        if largest_object
        then Some (fun v => Nat.eqb (label_at ll v) (1 + i))
        else None in
      if convex_hull then
        let hull := convex_image cc_i in
        out' <- load_fast "out" out ;;
        Ok (assign_box (bbox cc_i) hull out', (x, y, z))
      else
        out' <- load_fast "out" out ;;
        Ok (out', (x, y, z))
  end.

End Simplify.

Definition argmax_message : string :=
  "attempt to get argmax of an empty sequence".

End Virtue.

(** ** Example inputs and stand-ins for the libraries *)

Module Examples.

Import Virtue.

Local Open Scope string_scope.

(** A volume without any foreground voxel, and a labelling that finds no
    component in it. *)
Definition empty_volume : volume := fun _ => 0%Q.
Definition no_components : volume -> label_image := fun _ => [].

(** A convex hull that adds nothing (every region below is a box). *)
Definition hull_of_box : mask -> mask := fun m => m.

(** The voxels of the box [x0, x0 + nx) x [0, ny) x [0, nz). *)
Definition box (x0 : Z) (nx ny nz : nat) : list voxel :=
  flat_map (fun x =>
    flat_map (fun y =>
      map (fun z => ((x0 + Z.of_nat x)%Z, Z.of_nat y, Z.of_nat z)) (seq 0 nz))
      (seq 0 ny))
    (seq 0 nx).

(** Two boxes of 100 and 500 voxels, ten voxels apart. *)
Definition small_box : list voxel := box 0 10 10 1.
Definition big_box : list voxel := box 20 10 10 5.

Definition two_boxes : volume :=
  fun v => if existsb (voxel_eqb v) (small_box ++ big_box) then 1%Q else 0%Q.

Definition label_two_boxes : volume -> label_image :=
  fun _ => [small_box; big_box].

(** A tetrahedron, and stand-ins for the three library calls: no smoothing;
    an isosurface exists when the value at the first voxel reaches the
    level; a target reduction of 1 removes every face. *)
Definition tetra_V : list point :=
  [(0, 0, 0)%Q; (1, 0, 0)%Q; (0, 1, 0)%Q; (0, 0, 1)%Q].
Definition tetra_F : list (list Z) :=
  [[0; 1; 2]; [0; 1; 3]; [0; 2; 3]; [1; 2; 3]]%Z.

Definition unit_volume : volume := fun _ => 1%Q.

Definition no_smoothing : volume -> Q -> volume := fun vol _ => vol.

Definition tetra_surface (vol : volume) (level : Q) (step_size : Z)
  : result (list point * list (list Z)) :=
  if Qle_bool level (vol (0, 0, 0)%Z) then Ok (tetra_V, tetra_F)
  else Raise (ValueError "Surface level must be within volume data range.").

Definition remove_all_at_one (m : mesh) (target_reduction : Q) : result mesh :=
  if Qeq_bool target_reduction 1 then Ok (mk_mesh (points m) [])
  else Ok m.


End Examples.

(** ** Arrays of real data and the reference geometry, used to state the
    properties *)

Module Geometry.

Local Open Scope R_scope.

Definition scalar (x : R) : ndarray := Arr0 (Fin x).
Definition vector (xs : list R) : ndarray := Arr1 (map Fin xs).
Definition matrix (ncols : nat) (rows : list (list R)) : ndarray :=
  Arr2 ncols (map (map Fin) rows).

Definition row3 (p : R * R * R) : list R := let '(a, b, c) := p in [a; b; c].
Definition row2 (p : R * R) : list R := let '(a, b) := p in [a; b].

Definition fst3 (p : R * R * R) : R := fst (fst p).
Definition snd3 (p : R * R * R) : R := snd (fst p).
Definition thd3 (p : R * R * R) : R := snd p.

(** The point with spherical coordinates (radius, elevation, azimuth). *)
Definition cartesian_of (p : R * R * R) : R * R * R :=
  let '(r, el, az) := p in
  (r * sin el * cos az, r * sin el * sin az, r * cos el).

(** The direction with angles (elevation, azimuth). *)
Definition unit_vector (p : R * R) : R * R * R :=
  let '(el, az) := p in (sin el * cos az, sin el * sin az, cos el).





Definition origin : R * R * R := (0, 0, 0).




(** What the batch form of [c2s] computes from one row of its argument. *)
Definition radius_of (row : list float64) : float64 :=
  f_sqrt (fold_left f_add (map f_square row) (Fin 0)).
Definition elevation_of (row : list float64) : float64 :=
  f_arccos (f_div (nth 2 row (Fin 0)) (radius_of row)).
Definition azimuth_of (row : list float64) : float64 :=
  f_arctan2 (nth 1 row (Fin 0)) (nth 0 row (Fin 0)).

(** [c2s] after [s2c], in the call form of the arguments. *)
Definition round_trip (args : list ndarray) : list string * result pyval :=
  match Utils.s2c args with
  | Ok (VTuple3 X Y Z) => Utils.c2s [X; Y; Z]
  | Ok (VArray C) => Utils.c2s [C]
  | Ok VNone => ([], Ok VNone)
  | Raise e => ([], Raise e)
  end.

End Geometry.

(** ** Further reference notions for meshes *)

Module Mesh2.

Import Virtue.

(** Equality of points up to the representation of the rationals. *)
Definition point_eq (p q : point) : Prop :=
  let '(p0, p1, p2) := p in
  let '(q0, q1, q2) := q in (p0 == q0 /\ p1 == q1 /\ p2 == q2)%Q.

(** The index is within the bounds of an array of [n] elements, counting
    from the end when negative. *)
Definition index_in_range (n : nat) (k : Z) : Prop :=
  (- Z.of_nat n <= k < Z.of_nat n)%Z.

(** The position an index refers to. *)
Definition position (n : nat) (k : Z) : nat :=
  Z.to_nat (if (k <? 0)%Z then k + Z.of_nat n else k)%Z.

(** The mean of three points. *)
Definition mean3 (a b c : point) : point :=
  let '(a0, a1, a2) := a in
  let '(b0, b1, b2) := b in
  let '(c0, c1, c2) := c in
  ((a0 + b0 + c0) / 3, (a1 + b1 + c1) / 3, (a2 + b2 + c2) / 3)%Q.

End Mesh2.

(** ** File names: the argument checks of virtue.py and the stems of
    tractfinder_chh.py

    A Python [str] is a list of characters here. *)

Module Paths.

Local Open Scope string_scope.

Definition str : Type := list ascii.

(** A string literal. *)
Definition lit (s : string) : str := list_ascii_of_string s.

Definition extsep : ascii := "."%char.
Definition sep : ascii := "/"%char.

Fixpoint str_eqb (a b : str) : bool :=
  match a, b with
  | [], [] => true
  | x :: a', y :: b' => Ascii.eqb x y && str_eqb a' b'
  | _, _ => false
  end.

(** [s.split(c, 1)]: the part before the first [c] and, when there is
    one, the part after it. *)
Fixpoint split_once (c : ascii) (s : str) : str * option str :=
  match s with
  | [] => ([], None)
  | a :: s' =>
      if Ascii.eqb a c then ([], Some s')
      else let '(h, t) := split_once c s' in (a :: h, t)
  end.

(** [s.endswith(suffix)] *)
Fixpoint endswith (s suffix : str) : bool :=
  str_eqb s suffix
  || match s with
     | [] => false
     | _ :: s' => endswith s' suffix
     end.

(** [s.rfind(c)]: the last position of [c], if any. *)
Fixpoint rfind (c : ascii) (s : str) : option nat :=
  match s with
  | [] => None
  | a :: s' =>
      match rfind c s' with
      | Some i => Some (S i)
      | None => if Ascii.eqb a c then Some 0%nat else None
      end
  end.

(** The exceptions of the command-line code: the built-in ones, and
    [argparse.ArgumentTypeError]. *)
Inductive cli_exn : Type :=
| Builtin (e : exn)
| ArgumentTypeError (msg : str).

Inductive outcome (A : Type) : Type :=
| Returned (a : A)
| Raised (e : cli_exn).
Arguments Returned {A} a.
Arguments Raised {A} e.

(** [repr] of a tuple of plain strings (no quote, backslash or
    non-printing character in them). *)
Fixpoint repr_items (opts : list str) : str :=
  match opts with
  | [] => []
  | [o] => (lit "'" ++ o ++ lit "'")%list
  | o :: opts' => (lit "'" ++ o ++ lit "', " ++ repr_items opts')%list
  end.

Definition repr_tuple (opts : list str) : str :=
  match opts with
  | [o] => (lit "('" ++ o ++ lit "',)")%list
  | _ => (lit "(" ++ repr_items opts ++ lit ")")%list
  end.

(** [valid_ext(opts)(fname)], the [type_fun] that [parse_args] gives to
    argparse for each of its four arguments. *)
Definition valid_ext (opts : list str) (fname : str) : outcome str :=
  match split_once extsep fname with
  | (_, None) => Raised (Builtin (IndexError "list index out of range"))
  | (_, Some ext) =>
      if existsb (str_eqb ext) opts then Returned fname
      else Raised (ArgumentTypeError
             (lit "Only the following file extensions are supported: "
              ++ repr_tuple opts)%list)
  end.

(** [extensions] of [parse_args]. *)
Definition extensions : list str := [lit "mif"; lit "nii"; lit "nii.gz"].

Section Loaders.

(** The two image readers, [load_mrtrix] and [nib.load], with the data
    array of the image each returns. *)
Variables MrImage NibImage Data : Type.
Variable load_mrtrix : str -> outcome MrImage.
Variable nib_load : str -> outcome NibImage.
Variable mr_data : MrImage -> Data.
Variable nib_get_fdata : NibImage -> Data.

Inductive image_object : Type :=
| Mrtrix (img : MrImage)
| Nifti (img : NibImage).

(** [load_generic(fname)] *)
Definition load_generic (fname : str) : outcome (image_object * Data) :=
  if endswith fname (lit ".mif") then
    match load_mrtrix fname with
    | Returned img => Returned (Mrtrix img, mr_data img)
    | Raised e => Raised e
    end
  else if endswith fname (lit ".nii") || endswith fname (lit ".nii.gz") then
    match nib_load fname with
    | Returned img => Returned (Nifti img, nib_get_fdata img)
    | Raised e => Raised e
    end
  else Raised (Builtin (ValueError
         ("Invalid file extension: " ++ string_of_list_ascii fname))).

End Loaders.

(** [os.path.basename(p)]: what follows the last slash. *)
Definition basename (p : str) : str :=
  match rfind sep p with
  | Some i => skipn (S i) p
  | None => p
  end.

(** [os.path.splitext(p)]: split at the last dot of the last path
    component, unless only dots precede it in that component. *)
Definition splitext (p : str) : str * str :=
  match rfind extsep p with
  | None => (p, [])
  | Some dotIndex =>
      let filenameIndex :=
        match rfind sep p with Some sepIndex => S sepIndex | None => 0%nat end in
      if (filenameIndex <=? dotIndex)%nat then
        if forallb (fun a => Ascii.eqb a extsep)
             (skipn filenameIndex (firstn dotIndex p))
        then (p, [])
        else (firstn dotIndex p, skipn dotIndex p)
      else (p, [])
  end.

(** The loop [while ext: stem, ext = os.path.splitext(stem)], for at most
    [fuel] rounds. *)
Fixpoint strip_extensions (fuel : nat) (stem ext : str) : option str :=
  match ext with
  | [] => Some stem
  | _ :: _ =>
      match fuel with
      | O => None
      | S fuel' =>
          let '(stem', ext') := splitext stem in
          strip_extensions fuel' stem' ext'
      end
  end.

(** [pure_stem(pathstr)]; the length of the name bounds the rounds. *)
Definition pure_stem (pathstr : str) : option str :=
  let '(stem, ext) := splitext (basename pathstr) in
  strip_extensions (length stem) stem ext.

End Paths.

(** ** [decimate_surf] of virtue.py *)

Module Decimate.

Import Py Virtue.
Local Open Scope string_scope.
Local Open Scope list_scope.

(** [decimate_surf()] in the globals [g].  Its first statement,
    [sphereS = vtkSphereSource()], loads the global name and calls it;
    [rest] stands for the call and the statements after it (the other vtk
    calls and the two [print]s), which get the object the name is bound
    to. *)
Definition decimate_surf_in {A : Type} (g : namespace)
  (rest : pyobj -> traced A) : traced A :=
  tbind (tlift (load_global g "vtkSphereSource")) rest.

Definition decimate_surf {A : Type} : (pyobj -> traced A) -> traced A :=
  decimate_surf_in module_globals.

(** The names a module binds with [from vtk import ...], added to its
    globals. *)
Definition with_vtk (g : namespace) : namespace :=
  ("vtkSphereSource", POther "class") :: ("vtkPolyData", POther "class")
  :: ("vtkDecimatePro", POther "class") :: g.

End Decimate.

(** ** NumPy in double precision

    The arithmetic of [float64] as the hardware does it: IEEE 754
    binary64, with rounding to nearest, signed zeros, subnormal numbers,
    the two infinities and NaN.  [+], [-], [*], [/] and [sqrt] are the
    operations of the standard.  The trigonometric functions are not: they
    come from the mathematical library, which is a parameter here; only
    their values at the special arguments are fixed (Annex F of the C
    standard, which the NumPy documentation repeats). *)

Module Np64.

Import FloatClass PrimFloat.
Local Open Scope float_scope.

Definition float64 : Type := float.

(** The mathematical library behind [np.sin], [np.cos], [np.arccos] and
    [np.arctan2], away from the special arguments. *)
Record libm : Type := mk_libm {
  libm_sin : float -> float;
  libm_cos : float -> float;
  libm_acos : float -> float;
  libm_atan2 : float -> float -> float
}.

(** The doubles nearest to PI, PI/2, PI/4 and 3 PI/4. *)
Definition pi : float := 0x1.921fb54442d18p+1.
Definition pi_2 : float := 0x1.921fb54442d18p+0.
Definition pi_4 : float := 0x1.921fb54442d18p-1.
Definition pi_3_4 : float := 0x1.2d97c7f3321d2p+1.

Definition isnan (a : float) : bool := is_nan a.

(** [a == 0]: true of both zeros. *)
Definition is_zero (a : float) : bool := a =? 0.

Definition signbit (a : float) : bool :=
  match classify a with
  | NNormal | NSubn | NZero | NInf => true
  | _ => false
  end.

Definition copysign (m a : float) : float := if signbit a then - m else m.

Definition f_add (a b : float) : float := a + b.
Definition f_sub (a b : float) : float := a - b.
Definition f_mul (a b : float) : float := a * b.

(** True division; a division by zero gives an infinity or NaN (with a
    RuntimeWarning), it does not raise. *)
Definition f_div (a b : float) : float := a / b.

(** [a**2] *)
Definition f_square (a : float) : float := a * a.

Definition f_sqrt (a : float) : float := sqrt a.

Section Ufuncs.

Variable L : libm.

(** sin(+-0) = +-0; sin of an infinity or of NaN is NaN. *)
Definition f_sin (a : float) : float :=
  match classify a with
  | PZero | NZero => a
  | PInf | NInf | FloatClass.NaN => nan
  | _ => libm_sin L a
  end.

(** cos(+-0) = 1; cos of an infinity or of NaN is NaN. *)
Definition f_cos (a : float) : float :=
  match classify a with
  | PZero | NZero => 1
  | PInf | NInf | FloatClass.NaN => nan
  | _ => libm_cos L a
  end.

(** arccos(1) = +0; outside [-1, 1], and at NaN, the result is NaN. *)
Definition f_arccos (a : float) : float :=
  if isnan a then nan
  else if a =? 1 then 0
  else if 1 <? abs a then nan
  else libm_acos L a.

(** arctan2(y, x) at the special arguments:
    (+-0, -0) and (+-0, x < 0) give +-PI; (+-0, +0) and (+-0, x > 0) give
    +-0; (y, +-0) gives +-PI/2 with the sign of y; a finite y with -inf
    gives +-PI and with +inf +-0; an infinite y gives +-PI/2 with a
    finite x, +-3 PI/4 with -inf and +-PI/4 with +inf. *)
Definition f_arctan2 (y x : float) : float :=
  if isnan y || isnan x then nan
  else if is_zero y then
    (if signbit x then copysign pi y else copysign 0 y)
  else if is_zero x then copysign pi_2 y
  else if is_infinity x then
    (if is_infinity y
     then copysign (if signbit x then pi_3_4 else pi_4) y
     else if signbit x then copysign pi y else copysign 0 y)
  else if is_infinity y then copysign pi_2 y
  else libm_atan2 L y x.

End Ufuncs.

(** An array of dimension 0, 1 or 2.  A [Arr2 ncols rows] is well formed
    when every row has [ncols] elements. *)
Inductive ndarray : Type :=
| Arr0 (x : float)
| Arr1 (xs : list float)
| Arr2 (ncols : nat) (rows : list (list float)).

Definition np_map (f : float -> float) (a : ndarray) : ndarray :=
  match a with
  | Arr0 x => Arr0 (f x)
  | Arr1 xs => Arr1 (map f xs)
  | Arr2 n rows => Arr2 n (map (map f) rows)
  end.

Definition bcast1 (f : float -> float -> float)
  (xs ys : list float) : result (list float) :=
  bcast (fun x y => Ok (f x y)) xs ys.

Definition bcast2 (f : float -> float -> float)
  (n : nat) (rows : list (list float))
  (m : nat) (rows' : list (list float)) : result ndarray :=
  bind (bdim n m) (fun k =>
  bind (bcast (bcast1 f) rows rows') (fun out => Ok (Arr2 k out))).

(** An elementwise binary operation. *)
Definition np_binop (f : float -> float -> float)
  (a b : ndarray) : result ndarray :=
  match a, b with
  | Arr0 x, Arr0 y => Ok (Arr0 (f x y))
  | Arr0 x, Arr1 ys => Ok (Arr1 (map (f x) ys))
  | Arr1 xs, Arr0 y => Ok (Arr1 (map (fun x => f x y) xs))
  | Arr1 xs, Arr1 ys => bind (bcast1 f xs ys) (fun zs => Ok (Arr1 zs))
  | Arr0 x, Arr2 m rows => Ok (Arr2 m (map (map (f x)) rows))
  | Arr2 n rows, Arr0 y => Ok (Arr2 n (map (map (fun x => f x y)) rows))
  | Arr1 xs, Arr2 m rows => bcast2 f (length xs) [xs] m rows
  | Arr2 n rows, Arr1 ys => bcast2 f n rows (length ys) [ys]
  | Arr2 n rows, Arr2 m rows' => bcast2 f n rows m rows'
  end.

Definition np_add := np_binop f_add.
Definition np_sub := np_binop f_sub.
Definition np_mul := np_binop f_mul.
Definition np_div := np_binop f_div.
Definition np_square := np_map f_square.
Definition np_sqrt := np_map f_sqrt.
Definition np_sin (L : libm) := np_map (f_sin L).
Definition np_cos (L : libm) := np_map (f_cos L).
Definition np_arccos (L : libm) := np_map (f_arccos L).
Definition np_arctan2 (L : libm) := np_binop (f_arctan2 L).

(** Columns of a two-dimensional array: [A[:, j]] and [A[:, j] = v]. *)
Definition column (j : nat) (rows : list (list float)) : list float :=
  map (fun row => nth j row 0) rows.

Fixpoint set_nth (j : nat) (x : float) (row : list float) : list float :=
  match j, row with
  | _, [] => []
  | O, _ :: t => x :: t
  | S j', h :: t => h :: set_nth j' x t
  end.

Fixpoint set_column (j : nat) (v : list float) (rows : list (list float))
  : list (list float) :=
  match v, rows with
  | x :: v', row :: rows' => set_nth j x row :: set_column j v' rows'
  | _, _ => rows
  end.

(** [np.zeros((n, ncols))] *)
Definition zeros (n ncols : nat) : list (list float) :=
  repeat (repeat 0 ncols) n.

(** [np.sum(A, axis=1)]: the elements of a row are added from left to
    right, starting from 0. *)
Definition sum_axis1 (rows : list (list float)) : list float :=
  map (fun row => fold_left f_add row 0) rows.

(** [np.where(mask)[0]]: the indices at which a one-dimensional mask holds. *)
Fixpoint where_from (i : nat) (p : float -> bool) (xs : list float)
  : list nat :=
  match xs with
  | [] => []
  | x :: xs' => if p x then i :: where_from (S i) p xs' else where_from (S i) p xs'
  end.

Definition where_ (p : float -> bool) (xs : list float) : list nat :=
  where_from 0 p xs.

(** [np.sum(mask)]: how many elements satisfy the mask. *)
Definition count (p : float -> bool) (xs : list float) : nat :=
  length (filter p xs).

(** What a call returns: an array, a tuple of three arrays, or [None]. *)
Inductive pyval : Type :=
| VArray (a : ndarray)
| VTuple3 (a b c : ndarray)
| VNone.

End Np64.

(** ** lib/tractfinder/utils.py in double precision *)

Module Utils64.

Import PrimFloat Np64.
Local Open Scope py_scope.
Local Open Scope string_scope.
Local Open Scope float_scope.

(** The mock angle written over a NaN elevation: the double nearest to
    0.1 *)
Definition mock_angle : float := 0x1.999999999999ap-4.

Section WithLibm.

Variable L : libm.

(** [S[:,0] = np.sqrt(np.sum(C**2, axis=1))] and
    [S[:,1] = np.arccos(C[:,2]/S[:,0])] on [S = np.zeros(C.shape)]. *)
Definition c2s_radius_elevation (rows : list (list float))
  : list (list float) :=
  let S := zeros (length rows) 3 in
  let S := set_column 0 (map f_sqrt (sum_axis1 (map (map f_square) rows))) S in
  set_column 1 (map (f_arccos L) (map2 f_div (column 2 rows) (column 0 S))) S.

(** [S[:,2] = np.arctan2(C[:,1], C[:,0])] *)
Definition c2s_azimuth (rows S : list (list float)) : list (list float) :=
  set_column 2 (map2 (f_arctan2 L) (column 1 rows) (column 0 rows)) S.

(** [c2s], on the tuple of its positional arguments: the lines printed
    and the result. *)
Definition c2s (args : list ndarray) : list string * result pyval :=
  match args with
  | [C] =>
      match C with
      | Arr2 3 rows =>
          let S := c2s_radius_elevation rows in
          if existsb isnan (column 1 S) then
            let out := [Utils.nan_message (count isnan (column 1 S))] in
            match where_tuples_equal (where_ isnan (column 1 S))
                                     (where_ is_zero (column 0 S)) with
            | Raise e => (out, Raise e)
            | Ok false => (out, Raise (AssertionError Utils.nan_assert_message))
            | Ok true =>
                let S := set_column 1
                  (map (fun x => if isnan x then mock_angle else x) (column 1 S)) S in
                (out, Ok (VArray (Arr2 3 (c2s_azimuth rows S))))
            end
          else ([], Ok (VArray (Arr2 3 (c2s_azimuth rows S))))
      | _ => ([], Raise (AssertionError ""))
      end
  | [X; Y; Z] =>
      ([], xy <- np_add (np_square X) (np_square Y) ;;
           xyz <- np_add xy (np_square Z) ;;
           let rho := np_sqrt xyz in
           q <- np_div Z rho ;;
           let el := np_arccos L q in
           az <- np_arctan2 L Y X ;;
           Ok (VTuple3 rho el az))
  | _ => ([], Raise (TypeError "Supply either 1 or 3 inputs"))
  end.

(** [s2c], on the tuple of its positional arguments. *)
Definition s2c (args : list ndarray) : result pyval :=
  match args with
  | [S_] =>
      match S_ with
      | Arr2 3 rows =>
          let C := zeros (length rows) 3 in
          let sin_el := map (f_sin L) (column 1 rows) in
          let cos_el := map (f_cos L) (column 1 rows) in
          let sin_az := map (f_sin L) (column 2 rows) in
          let cos_az := map (f_cos L) (column 2 rows) in
          let C := set_column 0
            (map2 f_mul (map2 f_mul (column 0 rows) sin_el) cos_az) C in
          let C := set_column 1
            (map2 f_mul (map2 f_mul (column 0 rows) sin_el) sin_az) C in
          let C := set_column 2 (map2 f_mul (column 0 rows) cos_el) C in
          Ok (VArray (Arr2 3 C))
      | Arr2 2 rows =>
          let C := zeros (length rows) 3 in
          let sin_el := map (f_sin L) (column 0 rows) in
          let cos_el := map (f_cos L) (column 0 rows) in
          let sin_az := map (f_sin L) (column 1 rows) in
          let cos_az := map (f_cos L) (column 1 rows) in
          let C := set_column 0 (map2 f_mul sin_el cos_az) C in
          let C := set_column 1 (map2 f_mul sin_el sin_az) C in
          let C := set_column 2 cos_el C in
          Ok (VArray (Arr2 3 C))
      | Arr2 _ _ =>
          Raise (ValueError
            "Second dimension must have length 2 (if only supplying angles) or 3")
      | _ => Raise (AssertionError "")
      end
  | [El; Az] =>
      X <- np_mul (np_sin L El) (np_cos L Az) ;;
      Y <- np_mul (np_sin L El) (np_sin L Az) ;;
      let Z := np_cos L El in
      Ok (VTuple3 X Y Z)
  | [R; El; Az] =>
      rs <- np_mul R (np_sin L El) ;;
      X <- np_mul rs (np_cos L Az) ;;
      rs' <- np_mul R (np_sin L El) ;;
      Y <- np_mul rs' (np_sin L Az) ;;
      Z <- np_mul R (np_cos L El) ;;
      Ok (VTuple3 X Y Z)
  | _ => Ok VNone
  end.

End WithLibm.

End Utils64.

(** ** The coordinate changes of virtue.py in double precision *)

Module Virtue64.

Import PrimFloat Np64.
Local Open Scope py_scope.
Local Open Scope string_scope.
Local Open Scope float_scope.

Section WithLibm.

Variable L : libm.

(** [c2s], on the tuple of its positional arguments.  This copy has no
    treatment of NaN. *)
Definition c2s (args : list ndarray) : result pyval :=
  match args with
  | [C] =>
      match C with
      | Arr2 3 rows =>
          let S := zeros (length rows) 3 in
          let S := set_column 0
            (map f_sqrt (sum_axis1 (map (map f_square) rows))) S in
          let S := set_column 1
            (map (f_arccos L) (map2 f_div (column 2 rows) (column 0 S))) S in
          let S := set_column 2
            (map2 (f_arctan2 L) (column 1 rows) (column 0 rows)) S in
          Ok (VArray (Arr2 3 S))
      | _ => Raise (AssertionError "")
      end
  | [X; Y; Z] =>
      xy <- np_add (np_square X) (np_square Y) ;;
      xyz <- np_add xy (np_square Z) ;;
      let rho := np_sqrt xyz in
      q <- np_div Z rho ;;
      let el := np_arccos L q in
      az <- np_arctan2 L Y X ;;
      Ok (VTuple3 rho el az)
  | _ => Raise (TypeError "Supply either 1 or 3 inputs")
  end.

(** [s2c], on the tuple of its positional arguments. *)
Definition s2c (args : list ndarray) : result pyval :=
  match args with
  | [S_] =>
      match S_ with
      | Arr2 3 rows =>
          let C := zeros (length rows) 3 in
          let sin_el := map (f_sin L) (column 1 rows) in
          let cos_el := map (f_cos L) (column 1 rows) in
          let sin_az := map (f_sin L) (column 2 rows) in
          let cos_az := map (f_cos L) (column 2 rows) in
          let C := set_column 0
            (map2 f_mul (map2 f_mul (column 0 rows) sin_el) cos_az) C in
          let C := set_column 1
            (map2 f_mul (map2 f_mul (column 0 rows) sin_el) sin_az) C in
          let C := set_column 2 (map2 f_mul (column 0 rows) cos_el) C in
          Ok (VArray (Arr2 3 C))
      | Arr2 2 rows =>
          let C := zeros (length rows) 3 in
          let sin_el := map (f_sin L) (column 0 rows) in
          let cos_el := map (f_cos L) (column 0 rows) in
          let sin_az := map (f_sin L) (column 1 rows) in
          let cos_az := map (f_cos L) (column 1 rows) in
          let C := set_column 0 (map2 f_mul sin_el cos_az) C in
          let C := set_column 1 (map2 f_mul sin_el sin_az) C in
          let C := set_column 2 cos_el C in
          Ok (VArray (Arr2 3 C))
      | Arr2 _ _ =>
          Raise (ValueError
            "Second dimension must have length 2 (if only supplying angles) or 3")
      | _ => Raise (AssertionError "")
      end
  | [El; Az] =>
      X <- np_mul (np_sin L El) (np_cos L Az) ;;
      Y <- np_mul (np_sin L El) (np_sin L Az) ;;
      let Z := np_cos L El in
      Ok (VTuple3 X Y Z)
  | [R; El; Az] =>
      rs <- np_mul R (np_sin L El) ;;
      X <- np_mul rs (np_cos L Az) ;;
      rs' <- np_mul R (np_sin L El) ;;
      Y <- np_mul rs' (np_sin L Az) ;;
      Z <- np_mul R (np_cos L El) ;;
      Ok (VTuple3 X Y Z)
  | _ => Ok VNone
  end.

End WithLibm.

End Virtue64.

(** ** Arrays of doubles and the quantities of one point, used to state the
    properties in double precision *)

Module Geometry64.

Import PrimFloat SpecFloat FloatOps Np64.
Local Open Scope float_scope.

Definition point3 : Type := (float * float * float)%type.

Definition scalar (x : float) : ndarray := Arr0 x.
Definition vector (xs : list float) : ndarray := Arr1 xs.

Definition row3 (p : point3) : list float := let '(a, b, c) := p in [a; b; c].
Definition row2 (p : float * float) : list float := let '(a, b) := p in [a; b].

Definition fst3 (p : point3) : float := fst (fst p).
Definition snd3 (p : point3) : float := snd (fst p).
Definition thd3 (p : point3) : float := snd p.

(** The N x 3 array whose rows are the points. *)
Definition matrix3 (pts : list point3) : ndarray := Arr2 3 (map row3 pts).


(** The point is the origin: its three coordinates compare equal to 0
    (either zero). *)
Definition at_origin (p : point3) : bool :=
  let '(x, y, z) := p in is_zero x && is_zero y && is_zero z.

(** What the batch form of [c2s] computes from one row of its argument. *)
Definition radius_of (row : list float) : float :=
  f_sqrt (fold_left f_add (map f_square row) 0).
Definition elevation_of (L : libm) (row : list float) : float :=
  f_arccos L (f_div (nth 2 row 0) (radius_of row)).
Definition azimuth_of (L : libm) (row : list float) : float :=
  f_arctan2 L (nth 1 row 0) (nth 0 row 0).

(** What the componentwise form of [c2s] computes from one point. *)
Definition radius3 (p : point3) : float :=
  let '(x, y, z) := p in
  f_sqrt (f_add (f_add (f_square x) (f_square y)) (f_square z)).
Definition elevation3 (L : libm) (p : point3) : float :=
  f_arccos L (f_div (thd3 p) (radius3 p)).

(** One of the two zeros, or NaN. *)
Definition zero_or_nan (x : float) : Prop := x = 0 \/ x = -0 \/ x = nan.

(** A row on which the batch form meets neither a zero radius nor a NaN
    elevation. *)
Definition regular (L : libm) (p : point3) : Prop :=
  is_zero (radius_of (row3 p)) = false
  /\ isnan (elevation_of L (row3 p)) = false.


(** [c2s] after [s2c], in the call form of the arguments. *)
Definition round_trip (L : libm) (args : list ndarray)
  : list string * result pyval :=
  match Utils64.s2c L args with
  | Ok (VTuple3 X Y Z) => Utils64.c2s L [X; Y; Z]
  | Ok (VArray C) => Utils64.c2s L [C]
  | Ok VNone => ([], Ok VNone)
  | Raise e => ([], Raise e)
  end.

(** The rational number a finite double stands for. *)
Definition exact (x : float) : option Q :=
  match Prim2SF x with
  | S754_zero _ => Some 0%Q
  | S754_finite s m e =>
      Some (inject_Z (if s then Zneg m else Zpos m) * Qpower 2 e)%Q
  | _ => None
  end.


Definition ambiguous_truth_message : string :=
  "The truth value of an array with more than one element is ambiguous. Use a.any() or a.all()".

End Geometry64.

(** ** Further example inputs and stand-ins *)

Module Examples64.

Import PrimFloat Np64.
Local Open Scope float_scope.

(** A stand-in for the mathematical library, tabulated at the arguments
    the examples use with the correctly rounded values: sin 1, sin 3,
    cos 1, cos 3 and arccos 0.  NaN marks an argument that is not
    tabulated. *)
Definition libm_table : libm :=
  {| libm_sin := fun x =>
       if x =? 1 then 0x1.aed548f090ceep-1
       else if x =? 3 then 0x1.210386db6d55bp-3
       else nan;
     libm_cos := fun x =>
       if x =? 1 then 0x1.14a280fb5068cp-1
       else if x =? 3 then -0x1.fae04be85e5d2p-1
       else nan;
     libm_acos := fun x => if x =? 0 then pi_2 else nan;
     libm_atan2 := fun _ _ => nan |}.

(** Points on the polar axis and on the first axis, with one and with two
    points at the origin (the two zeros are both the origin). *)
Definition one_origin : list Geometry64.point3 := [(0, 0, 1); (0, 0, 0)].
Definition two_origins : list Geometry64.point3 :=
  [(0, 0, 0); (0, 0, 1); (-0, 0, 0)].
Definition two_regular : list Geometry64.point3 := [(0, 0, 2); (1, 0, 0)].

End Examples64.

Module Examples2.

Import Virtue Examples.





End Examples2.

(** * Properties *)

Import Geometry.

(** ** Real-number facts behind the coordinate changes *)

Section Angles.

Local Open Scope R_scope.









Lemma tan_shift (c s k : R) :
  0 < c -> k <> 0 -> (c * - s) / (c * - k) = s / k.
Proof. intros Hc Hk. field. split; lra. Qed.





End Angles.

(** ** Elementwise operations on arrays of equal shape *)

Section Arrays.

Lemma zipM_pure {A B C : Type} (f : A -> B -> C) (xs : list A) (ys : list B) :
  zipM (fun x y => Ok (f x y)) xs ys = Ok (map2 f xs ys).
Proof.
  revert ys. induction xs as [| x xs IH]; intros [| y ys]; simpl; try reflexivity.
  rewrite IH. reflexivity.
Qed.

Lemma mapM_pure {A B : Type} (f : A -> B) (xs : list A) :
  mapM (fun x => Ok (f x)) xs = Ok (map f xs).
Proof.
  induction xs as [| x xs IH]; simpl; [reflexivity | rewrite IH; reflexivity].
Qed.

Lemma bcast1_same_length (f : float64 -> float64 -> float64) (xs ys : list float64) :
  length xs = length ys -> bcast1 f xs ys = Ok (map2 f xs ys).
Proof.
  intros H. unfold bcast1, bcast. rewrite H, Nat.eqb_refl. apply zipM_pure.
Qed.

Lemma np_binop_vectors (f : float64 -> float64 -> float64) (xs ys : list float64) :
  length xs = length ys ->
  np_binop f (Arr1 xs) (Arr1 ys) = Ok (Arr1 (map2 f xs ys)).
Proof.
  intros H. simpl. rewrite bcast1_same_length by assumption. reflexivity.
Qed.

Lemma map2_length {A B C : Type} (f : A -> B -> C) (xs : list A) (ys : list B) :
  length xs = length ys -> length (map2 f xs ys) = length xs.
Proof.
  revert ys. induction xs as [| x xs IH]; intros [| y ys] H; simpl in *;
    try reflexivity; try discriminate.
  f_equal. apply IH. lia.
Qed.

Lemma map2_map {A B C D E : Type} (f : C -> D -> E) (g : A -> C) (h : B -> D)
  (xs : list A) (ys : list B) :
  map2 f (map g xs) (map h ys) = map2 (fun x y => f (g x) (h y)) xs ys.
Proof.
  revert ys. induction xs as [| x xs IH]; intros [| y ys]; simpl; try reflexivity.
  rewrite IH. reflexivity.
Qed.

Lemma map2_diag {A B C D : Type} (f : B -> C -> D) (g : A -> B) (h : A -> C)
  (xs : list A) :
  map2 f (map g xs) (map h xs) = map (fun x => f (g x) (h x)) xs.
Proof.
  induction xs as [| x xs IH]; simpl; [reflexivity | rewrite IH; reflexivity].
Qed.

(** Column operations on an array whose rows are computed from a list. *)
Lemma zeros_map {A : Type} (ps : list A) (ncols : nat) :
  zeros (length ps) ncols = map (fun _ => repeat (Fin 0%R) ncols) ps.
Proof.
  unfold zeros. induction ps as [| p ps IH]; simpl; [reflexivity |].
  rewrite IH. reflexivity.
Qed.

Lemma column_map {A : Type} (j : nat) (r : A -> list float64) (ps : list A) :
  column j (map r ps) = map (fun p => nth j (r p) (Fin 0%R)) ps.
Proof. unfold column. apply map_map. Qed.

Lemma set_column_map {A : Type} (j : nat) (f : A -> float64)
  (r : A -> list float64) (ps : list A) :
  set_column j (map f ps) (map r ps) = map (fun p => set_nth j (f p) (r p)) ps.
Proof.
  induction ps as [| p ps IH]; simpl; [reflexivity |]. rewrite IH. reflexivity.
Qed.








End Arrays.

(** ** The angle between two polar points *)

Section Ang.

Local Open Scope string_scope.
Local Open Scope R_scope.



(** With [sin] and [cos] imported from NumPy, the body of [ang] in
    virtue.py computes what [ang] in utils.py computes. *)
Lemma virtue_ang_with_imports (azA polA azB polB : ndarray) :
  Virtue.ang_in (("sin", Virtue.PUfunc f_sin) :: ("cos", Virtue.PUfunc f_cos)
                 :: Virtue.module_globals) azA polA azB polB
  = Utils.ang azA polA azB polB.
Proof.
  unfold Virtue.ang_in, Utils.ang. simpl.
  repeat match goal with
  | |- bind ?m _ = _ => destruct m; simpl; [| reflexivity]
  end.
  reflexivity.
Qed.


End Ang.

(** ** Spherical to Cartesian *)

Section S2C.

Local Open Scope string_scope.
Local Open Scope R_scope.


Lemma s2c_angle_rows (ps : list (R * R)) :
  Utils.s2c [matrix 2 (map row2 ps)]
  = Ok (VArray (matrix 3 (map (fun p => row3 (unit_vector p)) ps))).
Proof.
  unfold Utils.s2c, matrix. do 3 f_equal.
  rewrite !map_map, !length_map, zeros_map, !column_map.
  rewrite !map_map, !map2_diag, !set_column_map.
  rewrite ?map_map. apply map_ext. intros [el az]. reflexivity.
Qed.

End S2C.

(** ** Cartesian to spherical, and the round trip *)

Section C2S.

Local Open Scope string_scope.
Local Open Scope R_scope.














Lemma s2c_rows (ps : list (R * R * R)) :
  Utils.s2c [matrix 3 (map row3 ps)]
  = Ok (VArray (matrix 3 (map (fun p => row3 (cartesian_of p)) ps))).
Proof.
  unfold Utils.s2c, matrix. do 3 f_equal.
  rewrite !map_map, !length_map, zeros_map, !column_map.
  rewrite !map_map, !map2_diag, !set_column_map.
  rewrite ?map_map. apply map_ext. intros [[r el] az]. reflexivity.
Qed.







End C2S.

(** ** The growth routine *)

(** [grow] computes nothing: whatever the image, the masks and the lookup
    tables, it returns [None]. *)
Remark grow_returns_None {L : Type} (image tumour_mask brain_mask : Virtue.volume)
  (lookup : option L) :
  Virtue.grow image tumour_mask brain_mask lookup = VNone.
Proof. reflexivity. Qed.

(** ** Surfaces from volumes *)

Section SurfaceProperties.

Import Virtue.
Local Open Scope string_scope.

Lemma parse_cells_triangles (F : list (list Z)) (fuel : nat) :
  Forall (fun f => length f = 3%nat) F ->
  (length F <= fuel)%nat ->
  parse_cells fuel (concat (pad_faces F)) = F.
Proof.
  intros H. revert fuel. induction H as [| f F Hf _ IH]; intros fuel Hfuel.
  - destruct fuel; reflexivity.
  - destruct fuel as [| fuel]; [simpl in Hfuel; lia |].
    destruct f as [| a [| b [| c [| d f]]]]; try discriminate Hf.
    cbn. f_equal. apply IH. simpl in Hfuel. lia.
Qed.

(** A mesh built from an array of triangles has a face per row. *)
Lemma n_faces_PolyData (V : list point) (F : list (list Z)) :
  Forall (fun f => length f = 3%nat) F ->
  n_faces (PolyData V (pad_faces F)) = length F.
Proof.
  intros H. unfold n_faces, PolyData. cbn [cells].
  rewrite parse_cells_triangles; [reflexivity | assumption |].
  clear H. induction F as [| f F IH]; [apply Nat.le_0_l |].
  cbn [pad_faces map concat length]. rewrite length_app. cbn [length].
  unfold pad_faces in IH. lia.
Qed.

Variable gaussian : volume -> Q -> volume.
Variable marching_cubes :
  volume -> Q -> Z -> result (list point * list (list Z)).
Variable decimate : mesh -> Q -> result mesh.

Lemma surf_from_vol_calls (vol : volume) (sigma tr red : Q)
  (target : option Z) (V : list point) (F : list (list Z)) :
  marching_cubes (gaussian vol sigma) (1 # 2) 1 = Ok (V, F) ->
  choose_reduction (n_faces (PolyData V (pad_faces F))) tr target = Ok red ->
  fst (surf_from_vol gaussian marching_cubes decimate vol sigma tr target)
  = [call_gaussian sigma; call_marching_cubes (1 # 2) 1;
     call_decimate (n_faces (PolyData V (pad_faces F))) red].
Proof.
  intros Hmc Hred. unfold surf_from_vol, tcall, tlift, tret.
  rewrite Hmc. cbn [tbind]. rewrite Hred. cbn [tbind].
  destruct (decimate (PolyData V (pad_faces F)) red) as [m | e]; [| reflexivity].
  cbn [tbind].
  destruct (reshape4 (faces m)) as [rows | e]; [| reflexivity].
  cbn [tbind].
  destruct (mapM (face_centroid (points m)) (map (tl (A:=Z)) rows));
    reflexivity.
Qed.

(** C6, as the code has it: when [target_nfaces] is given and is not 0,
    the reduction handed to the decimation of the raw isosurface mesh is
    (current_faces - target) / current_faces, with current_faces the
    number of its faces; when [target_nfaces] is not given, or is 0,
    it is [target_reduction] itself. *)
Theorem surf_from_vol_reduction_applied (vol : volume) (sigma tr : Q)
  (target : option Z) (V : list point) (F : list (list Z)) :
  marching_cubes (gaussian vol sigma) (1 # 2) 1 = Ok (V, F) ->
  Forall (fun f => length f = 3%nat) F ->
  F <> [] ->
  fst (surf_from_vol gaussian marching_cubes decimate vol sigma tr target)
  = [call_gaussian sigma; call_marching_cubes (1 # 2) 1;
     call_decimate (length F)
       (match target with
        | Some t =>
            if (t =? 0)%Z then tr
            else (inject_Z (Z.of_nat (length F) - t)
                  / inject_Z (Z.of_nat (length F)))%Q
        | None => tr
        end)].
Proof.
  intros Hmc Htri Hne.
  rewrite <- (n_faces_PolyData V F Htri).
  apply surf_from_vol_calls; [assumption |].
  unfold choose_reduction, truthy, reduction_for_target.
  destruct target as [t |]; [| reflexivity].
  destruct (t =? 0)%Z; [reflexivity |]. cbn [negb].
  rewrite (n_faces_PolyData V F Htri).
  destruct F; [contradiction | reflexivity].
Qed.

(** C7, as the code has it: [surf_from_vol] has no check of its own.  When
    the isosurface extraction raises (as scikit-image does for an empty
    mask, where there is no 0.5 level), that exception is what the call
    raises and no surface is returned; when the decimation leaves a mesh
    without faces, the call returns, with no face and no centroid. *)
Theorem surf_from_vol_failure_and_empty_result (vol : volume) (sigma tr : Q)
  (target : option Z) :
  (forall e : exn,
      marching_cubes (gaussian vol sigma) (1 # 2) 1 = Raise e ->
      snd (surf_from_vol gaussian marching_cubes decimate vol sigma tr target)
      = Raise e)
  /\ (forall (V : list point) (F : list (list Z)) (red : Q) (pts : list point),
         marching_cubes (gaussian vol sigma) (1 # 2) 1 = Ok (V, F) ->
         choose_reduction (n_faces (PolyData V (pad_faces F))) tr target = Ok red ->
         decimate (PolyData V (pad_faces F)) red = Ok (mk_mesh pts []) ->
         snd (surf_from_vol gaussian marching_cubes decimate vol sigma tr target)
         = Ok ([], pts, CRows [])).
Proof.
  split.
  - intros e Hmc. unfold surf_from_vol, tcall. rewrite Hmc. reflexivity.
  - intros V F red pts Hmc Hred Hdec.
    unfold surf_from_vol, tcall, tlift, tret.
    rewrite Hmc. cbn [tbind]. rewrite Hred. cbn [tbind]. rewrite Hdec.
    reflexivity.
Qed.

End SurfaceProperties.

Section SurfaceExamples.

Import Virtue Examples.
Local Open Scope string_scope.

Lemma surf_from_vol_reduction_applied_witness :
  tetra_surface (no_smoothing unit_volume 1) (1 # 2) 1 = Ok (tetra_V, tetra_F)
  /\ Forall (fun f => length f = 3%nat) tetra_F
  /\ tetra_F <> []
  /\ fst (surf_from_vol no_smoothing tetra_surface remove_all_at_one
            unit_volume 1 (8 # 10) (Some 2%Z))
     = [call_gaussian 1; call_marching_cubes (1 # 2) 1;
        call_decimate 4 (inject_Z (4 - 2) / inject_Z 4)%Q].
Proof.
  assert (H1 : tetra_surface (no_smoothing unit_volume 1) (1 # 2) 1
               = Ok (tetra_V, tetra_F)) by reflexivity.
  assert (H2 : Forall (fun f => length f = 3%nat) tetra_F)
    by (repeat constructor).
  assert (H3 : tetra_F <> []) by discriminate.
  split; [exact H1 |]. split; [exact H2 |]. split; [exact H3 |].
  exact (surf_from_vol_reduction_applied no_smoothing tetra_surface
           remove_all_at_one unit_volume 1 (8 # 10) (Some 2%Z)
           tetra_V tetra_F H1 H2 H3).
Defined.

(** C6 fails for a target face count of 0: it is given, yet the reduction
    applied to the four faces of the raw mesh is the default 0.8, not
    (4 - 0) / 4. *)
Lemma surf_from_vol_zero_target_counterexample :
  fst (surf_from_vol no_smoothing tetra_surface remove_all_at_one
         unit_volume default_sigma default_target_reduction (Some 0%Z))
  = [call_gaussian 1; call_marching_cubes (1 # 2) 1; call_decimate 4 (8 # 10)]
  /\ n_faces (PolyData tetra_V (pad_faces tetra_F)) = 4%nat
  /\ ~ (8 # 10 == inject_Z (4 - 0) / inject_Z 4)%Q.
Proof.
  split; [reflexivity |]. split; [reflexivity |].
  intros H. vm_compute in H. discriminate H.
Qed.

Lemma surf_from_vol_failure_and_empty_result_witness :
  snd (surf_from_vol no_smoothing tetra_surface remove_all_at_one
         empty_volume 1 (8 # 10) None)
  = Raise (ValueError "Surface level must be within volume data range.")
  /\ snd (surf_from_vol no_smoothing tetra_surface remove_all_at_one
            unit_volume 1 1 None)
     = Ok ([], tetra_V, CRows []).
Proof.
  split.
  - exact (proj1 (surf_from_vol_failure_and_empty_result no_smoothing
             tetra_surface remove_all_at_one empty_volume 1 (8 # 10) None)
             _ eq_refl).
  - exact (proj2 (surf_from_vol_failure_and_empty_result no_smoothing
             tetra_surface remove_all_at_one unit_volume 1 1 None)
             tetra_V tetra_F 1%Q tetra_V eq_refl eq_refl eq_refl).
Defined.

(** C7 fails for a reduction that leaves no face: with a decimation that
    removes every face at a target reduction of 1, [surf_from_vol] returns
    a result, whose face and centroid arrays are empty. *)
Lemma surf_from_vol_no_faces_counterexample :
  snd (surf_from_vol no_smoothing tetra_surface remove_all_at_one
         unit_volume default_sigma 1 None)
  = Ok ([], tetra_V, CRows [])
  /\ returns (snd (surf_from_vol no_smoothing tetra_surface remove_all_at_one
                     unit_volume default_sigma 1 None)) = true.
Proof. split; reflexivity. Qed.

End SurfaceExamples.

(** ** Simplifying a mask *)

Section SimplifyProperties.

Import Virtue.
Local Open Scope string_scope.

Lemma argmax_from_bound (xs : list Z) (i best_i : nat) (best : Z) :
  (best_i < i)%nat -> (argmax_from i best_i best xs < i + length xs)%nat.
Proof.
  revert i best_i best. induction xs as [| x xs IH]; intros i best_i best H;
    cbn [argmax_from length].
  - lia.
  - destruct (best <? x)%Z.
    + specialize (IH (S i) i x). lia.
    + specialize (IH (S i) best_i best). lia.
Qed.

Lemma argmax_in_range (xs : list Z) (i : nat) :
  argmax xs = Ok i -> (i < length xs)%nat.
Proof.
  destruct xs as [| x xs]; [discriminate |]. cbn [argmax length].
  intros H. injection H as <-.
  pose proof (argmax_from_bound xs 1 0 x). lia.
Qed.

Lemma argmax_nonempty (xs : list Z) :
  xs <> [] -> exists i, argmax xs = Ok i /\ (i < length xs)%nat.
Proof.
  destruct xs as [| x xs]; [contradiction |]. intros _.
  eexists. split; [reflexivity |].
  pose proof (argmax_from_bound xs 1 0 x). cbn [length]. lia.
Qed.

Variable label : volume -> label_image.
Variable convex_hull_image : mask -> mask.

(** The region picked by [simplify_vol] when the labelling finds a
    component. *)
Lemma selected_region (vol : volume) :
  label vol <> [] ->
  exists (i : nat) (c : list voxel),
    argmax (map area (regionprops (label vol))) = Ok i
    /\ nth_error (label vol) i = Some c
    /\ nth_error (regionprops (label vol)) i = Some (mk_region c).
Proof.
  intros H.
  destruct (argmax_nonempty (map area (regionprops (label vol)))) as (i & E & Hi).
  { unfold regionprops. destruct (label vol); [contradiction | discriminate]. }
  unfold regionprops in Hi. rewrite !length_map in Hi.
  destruct (nth_error (label vol) i) as [c |] eqn:En.
  - exists i, c. split; [exact E |]. split; [exact En |].
    unfold regionprops. rewrite nth_error_map, En. reflexivity.
  - apply nth_error_None in En. lia.
Qed.

(** C5, as the code has it: with both flags false [simplify_vol] raises a
    [ValueError] before it looks at the mask; on a mask in which the
    labelling finds no component it raises the [ValueError] of
    [np.argmax] on an empty sequence.  In neither case is a mask or a
    centroid returned. *)
Theorem simplify_vol_failures (vol : volume) :
  simplify_vol label convex_hull_image vol false false = Raise (ValueError flags_message)
  /\ (label vol = [] ->
      forall convex_hull largest_object : bool,
        simplify_vol label convex_hull_image vol convex_hull largest_object
        = Raise (ValueError (if convex_hull || largest_object
                             then argmax_message else flags_message))).
Proof.
  split; [reflexivity |].
  intros H convex_hull largest_object. unfold simplify_vol. rewrite H.
  destruct convex_hull, largest_object; reflexivity.
Qed.

(** C8, as the code has it: with [convex_hull=True] and
    [largest_object=False], [simplify_vol] raises [UnboundLocalError] (a
    subclass of [NameError]) for the local [out] on every mask in which
    the labelling finds a component, and the [ValueError] of [np.argmax]
    on a mask without one; it never returns.  A call that returns has
    [largest_object=True]. *)
Theorem simplify_vol_hull_without_largest (vol : volume) :
  simplify_vol label convex_hull_image vol true false
  = match label vol with
    | [] => Raise (ValueError argmax_message)
    | _ :: _ => Raise (UnboundLocalError "out")
    end
  /\ isinstance (UnboundLocalError "out") "NameError" = true
  /\ forall convex_hull largest_object : bool,
       returns (simplify_vol label convex_hull_image vol convex_hull largest_object) = true ->
       largest_object = true.
Proof.
  split; [| split; [reflexivity |]].
  - destruct (label vol) as [| c ll] eqn:E.
    + unfold simplify_vol. rewrite E. reflexivity.
    + destruct (selected_region vol) as (i & c' & Ea & _ & En);
        [rewrite E; discriminate |].
      unfold simplify_vol. cbn [orb negb bind]. rewrite E in *. rewrite Ea.
      cbn [bind]. rewrite En. reflexivity.
  - intros convex_hull largest_object.
    destruct largest_object; [reflexivity |].
    destruct convex_hull; [| discriminate].
    unfold simplify_vol. cbn [orb negb bind].
    destruct (argmax (map area (regionprops (label vol)))) as [i | e];
      [| discriminate].
    cbn [bind]. destruct (nth_error (regionprops (label vol)) i); discriminate.
Qed.

(** *** The largest of two components *)

Lemma voxel_eqb_eq (a b : voxel) : voxel_eqb a b = true <-> a = b.
Proof.
  destruct a as [[a0 a1] a2], b as [[b0 b1] b2]. unfold voxel_eqb.
  rewrite !andb_true_iff, !Z.eqb_eq. split.
  - intros [[-> ->] ->]. reflexivity.
  - intros H. injection H as -> -> ->. auto.
Qed.

Lemma existsb_voxel_In (v : voxel) (l : list voxel) :
  existsb (voxel_eqb v) l = true <-> In v l.
Proof.
  rewrite existsb_exists. split.
  - intros (x & Hx & E). apply voxel_eqb_eq in E. subst. exact Hx.
  - intros H. exists v. split; [exact H | apply voxel_eqb_eq; reflexivity].
Qed.

Lemma voxel_sub_add (v lo : voxel) : voxel_add (voxel_sub v lo) lo = v.
Proof.
  destruct v as [[v0 v1] v2], lo as [[l0 l1] l2]. unfold voxel_add, voxel_sub.
  repeat f_equal; lia.
Qed.

Lemma fold_min_le (t : list Z) (h : Z) :
  (fold_left Z.min t h <= h)%Z
  /\ forall x, In x t -> (fold_left Z.min t h <= x)%Z.
Proof.
  revert h. induction t as [| a t IH]; intros h; cbn [fold_left].
  - split; [lia | intros x []].
  - destruct (IH (Z.min h a)) as [H1 H2]. split; [lia |].
    intros x [<- | Hx]; [lia | apply H2; exact Hx].
Qed.

Lemma fold_max_ge (t : list Z) (h : Z) :
  (h <= fold_left Z.max t h)%Z
  /\ forall x, In x t -> (x <= fold_left Z.max t h)%Z.
Proof.
  revert h. induction t as [| a t IH]; intros h; cbn [fold_left].
  - split; [lia | intros x []].
  - destruct (IH (Z.max h a)) as [H1 H2]. split; [lia |].
    intros x [<- | Hx]; [lia | apply H2; exact Hx].
Qed.

Lemma coord_bounds (k : nat) (c : list voxel) (v : voxel) :
  In v c -> (min_coord k c <= coord k v <= max_coord k c)%Z.
Proof.
  intros H. apply (in_map (coord k)) in H. unfold min_coord, max_coord.
  destruct (map (coord k) c) as [| h t]; [destruct H |].
  destruct (fold_min_le t h) as [m1 m2]. destruct (fold_max_ge t h) as [M1 M2].
  destruct H as [<- | H]; [lia |].
  specialize (m2 _ H). specialize (M2 _ H). lia.
Qed.

Lemma region_in_bbox (c : list voxel) (v : voxel) :
  In v c -> in_bbox (bbox (mk_region c)) v = true.
Proof.
  intros H.
  pose proof (coord_bounds 0 c v H) as H0.
  pose proof (coord_bounds 1 c v H) as H1.
  pose proof (coord_bounds 2 c v H) as H2.
  destruct v as [[v0 v1] v2]. unfold bbox, in_bbox. cbn [coords coord fst snd] in *.
  rewrite !andb_true_iff, !Z.leb_le, !Z.ltb_lt. lia.
Qed.

Lemma sum_bounds (l : list Z) (m M acc : Z) :
  (forall x, In x l -> m <= x <= M)%Z ->
  (m * Z.of_nat (length l) + acc <= fold_left Z.add l acc
   <= M * Z.of_nat (length l) + acc)%Z.
Proof.
  revert acc. induction l as [| a l IH]; intros acc H; cbn [fold_left length].
  - lia.
  - assert (Ha : (m <= a <= M)%Z) by (apply H; left; reflexivity).
    specialize (IH (acc + a)%Z (fun x Hx => H x (or_intror Hx))). lia.
Qed.

Lemma mean_coord_bounds (k : nat) (c : list voxel) :
  c <> [] ->
  (inject_Z (min_coord k c) <= mean_coord k c
   /\ mean_coord k c < inject_Z (max_coord k c + 1))%Q.
Proof.
  intros Hc.
  assert (Hn : (0 < Z.of_nat (length c))%Z) by (destruct c; [contradiction | cbn [length]; lia]).
  assert (Hb : (forall x, In x (map (coord k) c) ->
                 min_coord k c <= x <= max_coord k c)%Z).
  { intros x Hx. apply in_map_iff in Hx. destruct Hx as (v & <- & Hv).
    apply coord_bounds. exact Hv. }
  pose proof (sum_bounds _ _ _ 0%Z Hb) as Hs. rewrite length_map in Hs.
  unfold mean_coord.
  assert (Hq : (0 < inject_Z (Z.of_nat (length c)))%Q).
  { replace 0%Q with (inject_Z 0) by reflexivity. rewrite <- Zlt_Qlt. exact Hn. }
  split.
  - apply Qle_shift_div_l; [exact Hq |].
    rewrite <- inject_Z_mult, <- Zle_Qle. lia.
  - apply Qlt_shift_div_r; [exact Hq |].
    rewrite <- inject_Z_mult, <- Zlt_Qlt. lia.
Qed.

Lemma centroid_in_bbox (c : list voxel) :
  c <> [] -> point_in_bbox (bbox (mk_region c)) (centroid (mk_region c)).
Proof.
  intros Hc. unfold point_in_bbox, bbox, centroid. cbn [coords].
  pose proof (mean_coord_bounds 0 c Hc). pose proof (mean_coord_bounds 1 c Hc).
  pose proof (mean_coord_bounds 2 c Hc). tauto.
Qed.

Lemma label_from_range (ll : label_image) (k : nat) (v : voxel) :
  label_from k ll v = 0%nat \/ (k <= label_from k ll v)%nat.
Proof.
  revert k. induction ll as [| c ll IH]; intros k; cbn [label_from].
  - left. reflexivity.
  - destruct (existsb (voxel_eqb v) c); [right; lia |].
    destruct (IH (S k)) as [-> | H]; [left; reflexivity | right; lia].
Qed.

(** A voxel with the label [k + i] lies in the component at position [i]. *)
Lemma label_from_component (ll : label_image) (k i : nat) (v : voxel) :
  (0 < k)%nat -> label_from k ll v = (k + i)%nat ->
  exists c, nth_error ll i = Some c /\ In v c.
Proof.
  revert k i. induction ll as [| c ll IH]; intros k i Hk; cbn [label_from].
  - lia.
  - destruct (existsb (voxel_eqb v) c) eqn:E.
    + intros H. assert (i = 0%nat) by lia. subst i.
      exists c. split; [reflexivity | apply existsb_voxel_In; exact E].
    + intros H. destruct i as [| i].
      * destruct (label_from_range ll (S k) v); lia.
      * apply (IH (S k) i); lia.
Qed.


End SimplifyProperties.

Section SimplifyExamples.

Import Virtue Examples.
Local Open Scope string_scope.




Lemma simplify_vol_failures_witness :
  no_components empty_volume = []
  /\ simplify_vol no_components hull_of_box empty_volume true true
     = Raise (ValueError argmax_message).
Proof.
  split; [reflexivity |].
  exact (proj2 (simplify_vol_failures no_components hull_of_box empty_volume)
           eq_refl true true).
Defined.

(** C5 fails on the class of the exceptions: both failures raise
    [ValueError]; the code has no [ConfigurationError] and no
    [GeometryError]. *)
Lemma simplify_vol_error_class_counterexample :
  (exists e : exn,
      simplify_vol no_components hull_of_box empty_volume false false = Raise e
      /\ class_name e = "ValueError"
      /\ isinstance e "ConfigurationError" = false)
  /\ (exists e : exn,
         simplify_vol no_components hull_of_box empty_volume true true = Raise e
         /\ class_name e = "ValueError"
         /\ isinstance e "GeometryError" = false).
Proof.
  split; eexists; (split; [reflexivity | split; reflexivity]).
Qed.

Lemma simplify_vol_hull_without_largest_witness :
  returns (simplify_vol label_two_boxes hull_of_box two_boxes true true) = true
  /\ simplify_vol label_two_boxes hull_of_box two_boxes true false
     = Raise (UnboundLocalError "out")
  /\ true = true.
Proof.
  assert (H : returns (simplify_vol label_two_boxes hull_of_box two_boxes
                         true true) = true) by reflexivity.
  split; [exact H |]. split.
  - exact (proj1 (simplify_vol_hull_without_largest label_two_boxes hull_of_box
                    two_boxes)).
  - exact (proj2 (proj2 (simplify_vol_hull_without_largest label_two_boxes
                           hull_of_box two_boxes)) true true H).
Defined.

(** C8 fails on a mask without foreground: the call with
    [convex_hull=True] and [largest_object=False] raises the [ValueError]
    of [np.argmax], which is not a [NameError]. *)
Lemma simplify_vol_empty_mask_counterexample :
  simplify_vol no_components hull_of_box empty_volume true false
  = Raise (ValueError argmax_message)
  /\ isinstance (ValueError argmax_message) "NameError" = false.
Proof. split; reflexivity. Qed.

End SimplifyExamples.


(** * Further properties of the coordinate changes *)

Section ArgumentCount.

Local Open Scope string_scope.
Local Open Scope R_scope.

(** X6: the two functions treat a wrong number of arguments differently:
    [c2s] (either copy) raises [TypeError] unless it gets one or three
    arguments, and prints nothing; [s2c] returns [None] without an error
    when it gets none or more than three. *)
Theorem c2s_s2c_argument_count (args : list ndarray) :
  (length args <> 1%nat -> length args <> 3%nat ->
   Utils.c2s args = ([], Raise (TypeError "Supply either 1 or 3 inputs"))
   /\ Virtue.c2s args = Raise (TypeError "Supply either 1 or 3 inputs"))
  /\ (length args = 0%nat \/ (3 < length args)%nat ->
      Utils.s2c args = Ok VNone /\ Virtue.s2c args = Ok VNone).
Proof.
  split.
  - intros H1 H3.
    destruct args as [| a [| b [| c [| d args]]]]; cbn [length] in *;
      try contradiction; split; reflexivity.
  - intros H.
    destruct args as [| a [| b [| c [| d args]]]]; cbn [length] in *;
      try (split; reflexivity); lia.
Qed.

Lemma c2s_s2c_argument_count_witness :
  Utils.c2s [scalar 1; scalar 2]
  = ([], Raise (TypeError "Supply either 1 or 3 inputs"))
  /\ Utils.s2c [] = Ok VNone.
Proof.
  split.
  - refine (proj1 (proj1 (c2s_s2c_argument_count [scalar 1; scalar 2]) _ _));
      discriminate.
  - exact (proj1 (proj2 (c2s_s2c_argument_count []) (or_introl eq_refl))).
Defined.

End ArgumentCount.

Section MoreS2C.

Local Open Scope string_scope.
Local Open Scope R_scope.

(** X8: leaving the radius out is the same as giving the radius 1, for
    scalars, for arrays of equal length and for the array forms (N x 2
    against N x 3 with a first column of ones). *)
Theorem s2c_default_radius (ps : list (R * R)) :
  Utils.s2c [matrix 3 (map (fun p => row3 (1, fst p, snd p)) ps)]
  = Utils.s2c [matrix 2 (map row2 ps)]
  /\ Utils.s2c [vector (map (fun _ => 1) ps); vector (map fst ps);
                vector (map snd ps)]
     = Utils.s2c [vector (map fst ps); vector (map snd ps)]
  /\ Forall (fun p =>
       Utils.s2c [scalar 1; scalar (fst p); scalar (snd p)]
       = Utils.s2c [scalar (fst p); scalar (snd p)]) ps.
Proof.
  assert (E : forall el az,
             cartesian_of (1, el, az) = unit_vector (el, az)).
  { intros el az. unfold cartesian_of, unit_vector.
    f_equal; [f_equal |]; ring. }
  split; [| split].
  - rewrite <- (map_map (fun p => (1, fst p, snd p)) row3).
    rewrite s2c_rows, s2c_angle_rows. do 3 f_equal. rewrite map_map.
    apply map_ext. intros [el az]. cbn [fst snd]. rewrite E. reflexivity.
  - unfold Utils.s2c, vector, np_mul, np_sin, np_cos. cbn [np_map].
    repeat (rewrite ?map_map, ?map2_diag;
            rewrite np_binop_vectors by (rewrite !length_map; reflexivity);
            cbn [bind np_map]).
    rewrite ?map_map, ?map2_diag.
    do 2 f_equal; f_equal; apply map_ext; intros [el az]; cbn [fst snd];
      pose proof (E el az) as E'; unfold cartesian_of, unit_vector in E';
      injection E' as E1 E2 E3; cbn [f_sin f_cos f_mul];
      rewrite ?E1, ?E2, ?E3; reflexivity.
  - apply Forall_forall. intros [el az] _. cbn [fst snd].
    unfold Utils.s2c, scalar.
    cbn [np_sin np_cos np_map np_mul np_binop bind f_sin f_cos f_mul].
    pose proof (E el az) as E'. unfold cartesian_of, unit_vector in E'.
    injection E' as E1 E2 E3. rewrite E1, E2, E3. reflexivity.
Qed.

End MoreS2C.


(** * Further properties of the surface extraction *)

Import Mesh2.

Section MoreSurface.

Import Virtue.
Local Open Scope string_scope.

Lemma reshape4_rows_padded (cs : list (list Z)) (fuel : nat) :
  Forall (fun c => length c = 3%nat) cs ->
  (length cs <= fuel)%nat ->
  reshape4_rows fuel (concat (map (fun c => Z.of_nat (length c) :: c) cs))
  = map (fun c => 3%Z :: c) cs.
Proof.
  intros H. revert fuel. induction H as [| c cs Hc _ IH]; intros fuel Hfuel.
  - destruct fuel; reflexivity.
  - destruct fuel as [| fuel]; [simpl in Hfuel; lia |].
    destruct c as [| a [| b [| d [| e c]]]]; try discriminate Hc.
    cbn. f_equal. apply IH. simpl in Hfuel. lia.
Qed.

Lemma padded_length (cs : list (list Z)) :
  Forall (fun c => length c = 3%nat) cs ->
  length (concat (map (fun c => Z.of_nat (length c) :: c) cs))
  = (4 * length cs)%nat.
Proof.
  induction 1 as [| c cs Hc _ IH]; [reflexivity |].
  cbn [map concat length]. rewrite length_app. cbn [length].
  rewrite Hc, IH. lia.
Qed.

(** Reading the padded connectivity array back gives the cells. *)
Lemma faces_round_trip (m : mesh) :
  Forall (fun c => length c = 3%nat) (cells m) ->
  bind (reshape4 (faces m)) (fun rows => Ok (map (@tl Z) rows)) = Ok (cells m).
Proof.
  intros H. unfold reshape4, faces. rewrite (padded_length _ H).
  replace ((4 * length (cells m)) mod 4)%nat with 0%nat
    by (rewrite Nat.mul_comm, Nat.Div0.mod_mul; reflexivity).
  cbn [Nat.eqb bind]. rewrite reshape4_rows_padded by (assumption || lia).
  f_equal. rewrite map_map. cbn [tl]. apply map_id.
Qed.

Lemma index_point_in_range (V : list point) (k : Z) :
  index_in_range (length V) k ->
  exists p, index_point V k = Ok p
            /\ nth_error V (position (length V) k) = Some p.
Proof.
  unfold index_in_range, index_point, position. intros H.
  set (k' := (if (k <? 0)%Z then (k + Z.of_nat (length V))%Z else k)).
  assert (Hk' : (0 <= k' < Z.of_nat (length V))%Z).
  { unfold k'. destruct (k <? 0)%Z eqn:E;
      [apply Z.ltb_lt in E | apply Z.ltb_ge in E]; lia. }
  replace ((0 <=? k')%Z && (k' <? Z.of_nat (length V))%Z) with true
    by (symmetry; apply andb_true_iff; split;
        [apply Z.leb_le | apply Z.ltb_lt]; lia).
  destruct (nth_error V (Z.to_nat k')) as [p |] eqn:En.
  - exists p. split; reflexivity.
  - apply nth_error_None in En. lia.
Qed.

Lemma mean3_of_sum (a b c : point) :
  point_eq (point_div (fold_left point_add [a; b; c] (0, 0, 0)%Q) 3%Q)
           (mean3 a b c).
Proof.
  destruct a as [[a0 a1] a2], b as [[b0 b1] b2], c as [[c0 c1] c2].
  unfold point_eq, mean3, point_div. cbn [fold_left point_add].
  repeat split; apply Qdiv_comp; try reflexivity; ring.
Qed.

(** The centroid of one triangle with indices in range. *)
Lemma face_centroid_triangle (V : list point) (f : list Z) :
  length f = 3%nat ->
  Forall (index_in_range (length V)) f ->
  exists (c a b d : point) (i j k : Z),
    face_centroid V f = Ok c
    /\ f = [i; j; k]
    /\ nth_error V (position (length V) i) = Some a
    /\ nth_error V (position (length V) j) = Some b
    /\ nth_error V (position (length V) k) = Some d
    /\ point_eq c (mean3 a b d).
Proof.
  intros Hlen Hin.
  destruct f as [| i [| j [| k [| l f]]]]; try discriminate Hlen.
  inversion Hin as [| ? ? Hi Hin1]; subst.
  inversion Hin1 as [| ? ? Hj Hin2]; subst.
  inversion Hin2 as [| ? ? Hk _]; subst.
  destruct (index_point_in_range V i Hi) as (a & Ea & Na).
  destruct (index_point_in_range V j Hj) as (b & Eb & Nb).
  destruct (index_point_in_range V k Hk) as (d & Ed & Nd).
  eexists _, a, b, d, i, j, k.
  split.
  - unfold face_centroid. cbn [mapM]. rewrite Ea, Eb, Ed. cbn [bind].
    reflexivity.
  - repeat split; try assumption. apply mean3_of_sum.
Qed.

Lemma mapM_face_centroids (V : list point) (F : list (list Z)) :
  Forall (fun f => length f = 3%nat) F ->
  Forall (Forall (index_in_range (length V))) F ->
  exists cs : list point,
    mapM (face_centroid V) F = Ok cs
    /\ Forall2 (fun f c =>
          exists (a b d : point) (i j k : Z),
            f = [i; j; k]
            /\ nth_error V (position (length V) i) = Some a
            /\ nth_error V (position (length V) j) = Some b
            /\ nth_error V (position (length V) k) = Some d
            /\ point_eq c (mean3 a b d)) F cs.
Proof.
  induction 1 as [| f F Hf _ IH]; intros Hin.
  - exists []. split; [reflexivity | constructor].
  - inversion Hin as [| ? ? Hf' HF']; subst.
    destruct (IH HF') as (cs & Ecs & Hcs).
    destruct (face_centroid_triangle V f Hf Hf')
      as (c & a & b & d & i & j & k & Ec & Ef & Na & Nb & Nd & Hc).
    exists (c :: cs). split.
    + cbn [mapM]. rewrite Ec, Ecs. reflexivity.
    + constructor; [| exact Hcs]. exists a, b, d, i, j, k. auto.
Qed.

Variable gaussian : volume -> Q -> volume.
Variable marching_cubes :
  volume -> Q -> Z -> result (list point * list (list Z)).
Variable decimate : mesh -> Q -> result mesh.

(** X12: when the decimated mesh is made of triangles whose vertex
    indices are in range (negative ones counting from the end),
    [surf_from_vol] returns its cells as the faces, its points as the
    vertices, and one centroid per face, the mean of the three vertices
    of that face.  With exactly one face the centroid array loses its
    first axis: a bare point is returned instead of a 1 x 3 array. *)
Theorem surf_from_vol_faces_and_centroids (vol : volume) (sigma tr red : Q)
  (target : option Z) (V : list point) (F : list (list Z)) (m : mesh) :
  marching_cubes (gaussian vol sigma) (1 # 2) 1 = Ok (V, F) ->
  choose_reduction (n_faces (PolyData V (pad_faces F))) tr target = Ok red ->
  decimate (PolyData V (pad_faces F)) red = Ok m ->
  Forall (fun f => length f = 3%nat) (cells m) ->
  Forall (Forall (index_in_range (length (points m)))) (cells m) ->
  exists cs : list point,
    snd (surf_from_vol gaussian marching_cubes decimate vol sigma tr target)
    = Ok (cells m, points m, squeeze cs)
    /\ Forall2 (fun f c =>
          exists (a b d : point) (i j k : Z),
            f = [i; j; k]
            /\ nth_error (points m) (position (length (points m)) i) = Some a
            /\ nth_error (points m) (position (length (points m)) j) = Some b
            /\ nth_error (points m) (position (length (points m)) k) = Some d
            /\ point_eq c (mean3 a b d)) (cells m) cs
    /\ (n_faces m <> 1%nat -> squeeze cs = CRows cs)
    /\ (n_faces m = 1%nat -> exists c, cs = [c] /\ squeeze cs = CPoint c).
Proof.
  intros Hmc Hred Hdec Htri Hin.
  destruct (mapM_face_centroids (points m) (cells m) Htri Hin) as (cs & Ecs & Hcs).
  exists cs. split; [| split; [exact Hcs |]].
  - unfold surf_from_vol, tcall, tlift, tret.
    rewrite Hmc. cbn [tbind]. rewrite Hred. cbn [tbind]. rewrite Hdec.
    cbn [tbind].
    pose proof (faces_round_trip m Htri) as Hrt.
    destruct (reshape4 (faces m)) as [rows | e]; [| discriminate Hrt].
    cbn [bind] in Hrt. injection Hrt as Hrt. cbn [tbind]. rewrite Hrt, Ecs.
    reflexivity.
  - pose proof (Forall2_length Hcs) as Hlen. unfold n_faces. split.
    + intros Hn. destruct cs as [| c [| c' cs]]; try reflexivity.
      cbn [length] in Hlen. contradiction.
    + intros Hn. rewrite Hn in Hlen.
      destruct cs as [| c [| c' cs]]; try discriminate Hlen.
      exists c. split; reflexivity.
Qed.

(** X13: the reduction computed from a target face count is a fraction in
    [0, 1) exactly when the target is between 1 and the number of faces of
    the raw mesh; a larger target gives a negative reduction, which is
    handed to the decimation as it is. *)
Theorem surf_from_vol_reduction_range (vol : volume) (sigma tr : Q) (t : Z)
  (V : list point) (F : list (list Z)) :
  marching_cubes (gaussian vol sigma) (1 # 2) 1 = Ok (V, F) ->
  Forall (fun f => length f = 3%nat) F ->
  F <> [] ->
  t <> 0%Z ->
  exists red : Q,
    fst (surf_from_vol gaussian marching_cubes decimate vol sigma tr (Some t))
    = [call_gaussian sigma; call_marching_cubes (1 # 2) 1;
       call_decimate (length F) red]
    /\ ((0 <= red /\ red < 1)%Q <-> (0 < t <= Z.of_nat (length F))%Z)
    /\ ((Z.of_nat (length F) < t)%Z -> (red < 0)%Q).
Proof.
  intros Hmc Htri Hne Ht.
  set (n := Z.of_nat (length F)).
  assert (Hn : (0 < n)%Z) by (unfold n; destruct F; [contradiction | cbn [length]; lia]).
  exists (inject_Z (n - t) / inject_Z n)%Q.
  assert (Hq : (0 < inject_Z n)%Q).
  { replace 0%Q with (inject_Z 0) by reflexivity. rewrite <- Zlt_Qlt. exact Hn. }
  split; [| split].
  - rewrite <- (n_faces_PolyData V F Htri).
    apply surf_from_vol_calls; [assumption |].
    unfold choose_reduction, truthy, reduction_for_target.
    apply Z.eqb_neq in Ht. rewrite Ht. cbn [negb].
    rewrite (n_faces_PolyData V F Htri).
    destruct F; [contradiction | reflexivity].
  - split.
    + intros [H0 H1].
      apply (Qmult_le_r _ _ _ Hq) in H0.
      apply (Qmult_lt_r _ _ _ Hq) in H1.
      rewrite Qmult_0_l in H0. rewrite Qmult_1_l in H1.
      assert (Hd : (inject_Z (n - t) / inject_Z n * inject_Z n
                    == inject_Z (n - t))%Q)
        by (field; intros E; rewrite E in Hq; apply (Qlt_irrefl _ Hq)).
      rewrite Hd in H0, H1.
      replace 0%Q with (inject_Z 0) in H0 by reflexivity.
      rewrite <- Zle_Qle in H0. rewrite <- Zlt_Qlt in H1. lia.
    + intros [H0 H1]. split.
      * apply Qle_shift_div_l; [exact Hq |]. rewrite Qmult_0_l.
        replace 0%Q with (inject_Z 0) by reflexivity. rewrite <- Zle_Qle. lia.
      * apply Qlt_shift_div_r; [exact Hq |]. rewrite Qmult_1_l.
        rewrite <- Zlt_Qlt. lia.
  - intros Hlt. apply Qlt_shift_div_r; [exact Hq |]. rewrite Qmult_0_l.
    replace 0%Q with (inject_Z 0) by reflexivity. rewrite <- Zlt_Qlt. lia.
Qed.

End MoreSurface.

Section MoreSurfaceExamples.

Import Virtue Examples.
Local Open Scope string_scope.

Lemma tetra_indices_in_range :
  Forall (Forall (index_in_range (length tetra_V))) tetra_F.
Proof.
  unfold tetra_F, tetra_V, index_in_range. cbn [length].
  repeat constructor; cbv; discriminate.
Defined.

Lemma surf_from_vol_faces_and_centroids_witness :
  tetra_surface (no_smoothing unit_volume 1) (1 # 2) 1 = Ok (tetra_V, tetra_F)
  /\ remove_all_at_one (PolyData tetra_V (pad_faces tetra_F)) (8 # 10)
     = Ok (mk_mesh tetra_V tetra_F)
  /\ exists cs : list point,
       snd (surf_from_vol no_smoothing tetra_surface remove_all_at_one
              unit_volume 1 (8 # 10) None)
       = Ok (tetra_F, tetra_V, squeeze cs).
Proof.
  split; [reflexivity |]. split; [reflexivity |].
  destruct (surf_from_vol_faces_and_centroids no_smoothing tetra_surface
              remove_all_at_one unit_volume 1 (8 # 10) (8 # 10) None
              tetra_V tetra_F (mk_mesh tetra_V tetra_F)
              eq_refl eq_refl eq_refl
              (ltac:(repeat constructor)) tetra_indices_in_range)
    as (cs & E & _).
  exists cs. exact E.
Defined.

Lemma surf_from_vol_reduction_range_witness :
  tetra_surface (no_smoothing unit_volume 1) (1 # 2) 1 = Ok (tetra_V, tetra_F)
  /\ exists red : Q,
       fst (surf_from_vol no_smoothing tetra_surface remove_all_at_one
              unit_volume 1 (8 # 10) (Some 2%Z))
       = [call_gaussian 1; call_marching_cubes (1 # 2) 1; call_decimate 4 red]
       /\ (0 <= red /\ red < 1)%Q.
Proof.
  split; [reflexivity |].
  destruct (surf_from_vol_reduction_range no_smoothing tetra_surface
              remove_all_at_one unit_volume 1 (8 # 10) 2%Z tetra_V tetra_F
              eq_refl (ltac:(repeat constructor)) (ltac:(discriminate))
              (ltac:(discriminate)))
    as (red & E & [_ Hr] & _).
  exists red. split; [exact E |]. apply Hr. cbn.
  split; [reflexivity | discriminate].
Defined.

End MoreSurfaceExamples.

(** * Further properties of the mask simplification *)

Section MoreSimplify.

Import Virtue.
Local Open Scope string_scope.

(** [np.argmax]: the position returned holds a maximum, and every earlier
    position holds a smaller value. *)
Lemma argmax_from_spec (xs pre : list Z) (best_i : nat) (best : Z) :
  nth_error pre best_i = Some best ->
  (forall y, In y pre -> (y <= best)%Z) ->
  (forall j y, (j < best_i)%nat -> nth_error pre j = Some y -> (y < best)%Z) ->
  exists m : Z,
    nth_error (pre ++ xs) (argmax_from (length pre) best_i best xs) = Some m
    /\ (forall y, In y (pre ++ xs) -> (y <= m)%Z)
    /\ (forall j y, (j < argmax_from (length pre) best_i best xs)%nat ->
                    nth_error (pre ++ xs) j = Some y -> (y < m)%Z).
Proof.
  revert pre best_i best. induction xs as [| x xs IH];
    intros pre best_i best Hb Hmax Hfirst.
  - cbn [argmax_from]. rewrite app_nil_r. exists best. auto.
  - cbn [argmax_from].
    assert (Happ : (pre ++ x :: xs = (pre ++ [x]) ++ xs)%list)
      by (rewrite <- app_assoc; reflexivity).
    assert (Hlen : length (pre ++ [x]) = S (length pre))
      by (rewrite length_app; cbn [length]; lia).
    destruct (best <? x)%Z eqn:E.
    + apply Z.ltb_lt in E. rewrite Happ, <- Hlen.
      replace (length pre) with (length pre + 0)%nat at 2 by lia.
      assert (Hn : nth_error (pre ++ [x]) (length pre) = Some x).
      { rewrite nth_error_app2 by lia. rewrite Nat.sub_diag. reflexivity. }
      replace (length pre + 0)%nat with (length pre) by lia.
      apply IH.
      * exact Hn.
      * intros y Hy. apply in_app_or in Hy. destruct Hy as [Hy | [<- | []]];
          [specialize (Hmax y Hy) |]; lia.
      * intros j y Hj Hy. rewrite nth_error_app1 in Hy by exact Hj.
        apply nth_error_In in Hy. specialize (Hmax y Hy). lia.
    + apply Z.ltb_ge in E. rewrite Happ, <- Hlen.
      assert (Hbi : (best_i < length pre)%nat)
        by (apply nth_error_Some; rewrite Hb; discriminate).
      apply IH.
      * rewrite nth_error_app1 by exact Hbi. exact Hb.
      * intros y Hy. apply in_app_or in Hy. destruct Hy as [Hy | [<- | []]];
          [apply Hmax; exact Hy | exact E].
      * intros j y Hj Hy. rewrite nth_error_app1 in Hy by lia.
        apply (Hfirst j y Hj Hy).
Qed.

Lemma argmax_spec (xs : list Z) :
  xs <> [] ->
  exists (i : nat) (m : Z),
    argmax xs = Ok i
    /\ nth_error xs i = Some m
    /\ (forall y, In y xs -> (y <= m)%Z)
    /\ (forall j y, (j < i)%nat -> nth_error xs j = Some y -> (y < m)%Z).
Proof.
  destruct xs as [| x xs]; [contradiction |]. intros _.
  destruct (argmax_from_spec xs [x] 0 x) as (m & H1 & H2 & H3).
  - reflexivity.
  - intros y [<- | []]. lia.
  - intros j y Hj. lia.
  - exists (argmax_from 1 0 x xs), m. split; [reflexivity |]. auto.
Qed.

Variable label : volume -> label_image.
Variable convex_hull_image : mask -> mask.

(** The component [simplify_vol] selects: one with the largest number of
    voxels, the first of them in label order. *)
Lemma selected_is_largest (vol : volume) :
  label vol <> [] ->
  exists (i : nat) (c : list voxel),
    argmax (map area (regionprops (label vol))) = Ok i
    /\ nth_error (label vol) i = Some c
    /\ (forall c', In c' (label vol) -> (length c' <= length c)%nat)
    /\ (forall j c', (j < i)%nat -> nth_error (label vol) j = Some c' ->
                     (length c' < length c)%nat).
Proof.
  intros H.
  destruct (argmax_spec (map area (regionprops (label vol))))
    as (i & m & Ea & En & Hmax & Hfirst).
  { unfold regionprops. destruct (label vol); [contradiction | discriminate]. }
  unfold regionprops in En, Hmax, Hfirst. rewrite map_map in En, Hmax, Hfirst.
  rewrite nth_error_map in En.
  destruct (nth_error (label vol) i) as [c |] eqn:Ec; [| discriminate En].
  cbn [option_map] in En. injection En as <-. unfold area in Hmax, Hfirst.
  cbn [coords] in Hmax, Hfirst.
  exists i, c. split; [exact Ea |]. split; [exact Ec |]. split.
  - intros c' Hc'.
    assert (Hy : In (Z.of_nat (length c'))
                    (map (fun x => Z.of_nat (length x)) (label vol)))
      by (apply in_map_iff; exists c'; auto).
    specialize (Hmax _ Hy). cbn [area coords] in Hmax. lia.
  - intros j c' Hj Hc'.
    assert (Hy : nth_error (map (fun x => Z.of_nat (length x)) (label vol)) j
                 = Some (Z.of_nat (length c')))
      by (rewrite nth_error_map, Hc'; reflexivity).
    specialize (Hfirst _ _ Hj Hy). cbn [area coords] in Hfirst. lia.
Qed.

(** X14: with [largest_object=True] and [convex_hull=False], on a mask in
    which the labelling finds a component, [simplify_vol] returns the
    mask of one component and its centroid: a component with the most
    voxels, the first such in label order.  The mask holds the voxels
    that carry the label of that component. *)
Theorem simplify_vol_largest_only (vol : volume) :
  label vol <> [] ->
  exists (i : nat) (c : list voxel) (out : mask),
    simplify_vol label convex_hull_image vol false true
    = Ok (out, centroid (mk_region c))
    /\ nth_error (label vol) i = Some c
    /\ (forall c', In c' (label vol) -> (length c' <= length c)%nat)
    /\ (forall j c', (j < i)%nat -> nth_error (label vol) j = Some c' ->
                     (length c' < length c)%nat)
    /\ (forall v, out v = true <-> label_at (label vol) v = S i)
    /\ (forall v, out v = true -> In v c).
Proof.
  intros H.
  destruct (selected_is_largest vol H) as (i & c & Ea & Ec & Hmax & Hfirst).
  exists i, c, (fun v => Nat.eqb (label_at (label vol) v) (1 + i)).
  split; [| split; [exact Ec | split; [exact Hmax | split; [exact Hfirst |]]]].
  - unfold simplify_vol. cbn [orb negb bind]. rewrite Ea. cbn [bind].
    unfold regionprops. rewrite nth_error_map, Ec. reflexivity.
  - split.
    + intros v. apply Nat.eqb_eq.
    + intros v Hv. apply Nat.eqb_eq in Hv. unfold label_at in Hv.
      destruct (label_from_component (label vol) 1 i v) as (c' & Hc' & Hin);
        [lia | exact Hv |].
      rewrite Ec in Hc'. injection Hc' as <-. exact Hin.
Qed.

(** X15: with the default flags, on a mask in which the labelling finds a
    component (none of them empty), [simplify_vol] returns the convex
    image of a largest component placed in its bounding box: every
    foreground voxel of the result lies in that box, the centroid returned
    is the centroid of the component and lies in the box, and the result
    contains the component whenever its convex hull does. *)
Theorem simplify_vol_default_flags (vol : volume) :
  label vol <> [] ->
  Forall (fun c => c <> []) (label vol) ->
  exists (c : list voxel) (out : mask),
    simplify_vol label convex_hull_image vol true true
    = Ok (out, centroid (mk_region c))
    /\ In c (label vol)
    /\ (forall c', In c' (label vol) -> (length c' <= length c)%nat)
    /\ (forall v, out v = true -> in_bbox (bbox (mk_region c)) v = true)
    /\ point_in_bbox (bbox (mk_region c)) (centroid (mk_region c))
    /\ ((forall v, image (mk_region c) v = true ->
                   convex_hull_image (image (mk_region c)) v = true) ->
        forall v, In v c -> out v = true).
Proof.
  intros H Hne.
  destruct (selected_is_largest vol H) as (i & c & Ea & Ec & Hmax & _).
  assert (Hin : In c (label vol)) by (eapply nth_error_In; exact Ec).
  exists c, (assign_box (bbox (mk_region c))
               (convex_image convex_hull_image (mk_region c))
               (fun v => Nat.eqb (label_at (label vol) v) (1 + i))).
  split; [| split; [exact Hin | split; [exact Hmax | split; [| split]]]].
  - unfold simplify_vol. cbn [orb negb bind]. rewrite Ea. cbn [bind].
    unfold regionprops. rewrite nth_error_map, Ec. reflexivity.
  - intros v. unfold assign_box.
    destruct (in_bbox (bbox (mk_region c)) v) eqn:Eb; [reflexivity |].
    intros Hv. apply Nat.eqb_eq in Hv. unfold label_at in Hv.
    destruct (label_from_component (label vol) 1 i v) as (c' & Hc' & Hv');
      [lia | exact Hv |].
    rewrite Ec in Hc'. injection Hc' as <-.
    rewrite (region_in_bbox c v Hv') in Eb. discriminate Eb.
  - apply centroid_in_bbox. rewrite Forall_forall in Hne. apply Hne. exact Hin.
  - intros Hhull v Hv. unfold assign_box. rewrite (region_in_bbox c v Hv).
    apply Hhull. unfold image. rewrite voxel_sub_add.
    apply existsb_voxel_In. exact Hv.
Qed.

End MoreSimplify.

Section MoreSimplifyExamples.

Import Virtue Examples.
Local Open Scope string_scope.

Lemma two_boxes_labelled : label_two_boxes two_boxes <> [].
Proof. discriminate. Defined.

Lemma two_boxes_nonempty : Forall (fun c => c <> []) (label_two_boxes two_boxes).
Proof.
  repeat constructor; intros H; apply (f_equal (@length voxel)) in H;
    vm_compute in H; discriminate H.
Defined.

Lemma simplify_vol_largest_only_witness :
  label_two_boxes two_boxes <> []
  /\ exists (i : nat) (c : list voxel) (out : mask),
       simplify_vol label_two_boxes hull_of_box two_boxes false true
       = Ok (out, centroid (mk_region c))
       /\ nth_error (label_two_boxes two_boxes) i = Some c.
Proof.
  split; [exact two_boxes_labelled |].
  destruct (simplify_vol_largest_only label_two_boxes hull_of_box two_boxes
              two_boxes_labelled) as (i & c & out & E & En & _).
  exists i, c, out. split; [exact E | exact En].
Defined.

Lemma simplify_vol_default_flags_witness :
  label_two_boxes two_boxes <> []
  /\ Forall (fun c => c <> []) (label_two_boxes two_boxes)
  /\ exists (c : list voxel) (out : mask),
       simplify_vol label_two_boxes hull_of_box two_boxes true true
       = Ok (out, centroid (mk_region c))
       /\ In c (label_two_boxes two_boxes).
Proof.
  split; [exact two_boxes_labelled |]. split; [exact two_boxes_nonempty |].
  destruct (simplify_vol_default_flags label_two_boxes hull_of_box two_boxes
              two_boxes_labelled two_boxes_nonempty) as (c & out & E & Hin & _).
  exists c, out. split; [exact E | exact Hin].
Defined.

End MoreSimplifyExamples.

(** * File names *)

Section PathLemmas.

Import Paths.
Local Open Scope string_scope.
Local Open Scope list_scope.

Lemma str_eqb_eq (a b : str) : str_eqb a b = true <-> a = b.
Proof.
  revert b. induction a as [| x a IH]; intros [| y b]; cbn [str_eqb];
    try (split; [discriminate | discriminate]); [split; reflexivity |].
  rewrite andb_true_iff, Ascii.eqb_eq, IH. split.
  - intros [-> ->]. reflexivity.
  - intros H. injection H as -> ->. auto.
Qed.

Lemma existsb_str_In (x : str) (l : list str) :
  existsb (str_eqb x) l = true <-> In x l.
Proof.
  rewrite existsb_exists. split.
  - intros (y & Hy & E). apply str_eqb_eq in E. subst. exact Hy.
  - intros H. exists x. split; [exact H | apply str_eqb_eq; reflexivity].
Qed.

(** [split_once] cuts at the first separator. *)
Lemma split_once_some (c : ascii) (s h t : str) :
  split_once c s = (h, Some t) <-> s = h ++ c :: t /\ ~ In c h.
Proof.
  revert h. induction s as [| a s IH]; intros h; cbn [split_once].
  - split; [discriminate |]. intros [H _]. destruct h; discriminate H.
  - destruct (Ascii.eqb a c) eqn:E.
    + apply Ascii.eqb_eq in E. subst a. split.
      * intros H. injection H as <- <-. split; [reflexivity | intros []].
      * intros [H Hn]. destruct h as [| x h].
        -- injection H as ->. reflexivity.
        -- injection H as -> _. exfalso. apply Hn. left. reflexivity.
    + apply Ascii.eqb_neq in E.
      destruct (split_once c s) as [h' t'] eqn:Es. split.
      * intros H. injection H as <- ->.
        destruct (proj1 (IH h') eq_refl) as [-> Hn]. split; [reflexivity |].
        intros [H | H]; [contradiction | exact (Hn H)].
      * intros [H Hn]. destruct h as [| x h].
        -- injection H as H _. contradiction.
        -- injection H as -> ->.
           assert (Hs : (h', t') = (h, Some t)).
           { apply IH. split; [reflexivity |].
             intros Hc. apply Hn. right. exact Hc. }
           injection Hs as -> ->. reflexivity.
Qed.

Lemma split_once_none (c : ascii) (s h : str) :
  split_once c s = (h, None) <-> h = s /\ ~ In c s.
Proof.
  revert h. induction s as [| a s IH]; intros h; cbn [split_once].
  - split.
    + intros H. injection H as <-. split; [reflexivity | intros []].
    + intros [-> _]. reflexivity.
  - destruct (Ascii.eqb a c) eqn:E.
    + apply Ascii.eqb_eq in E. subst a. split; [discriminate |].
      intros [_ Hn]. exfalso. apply Hn. left. reflexivity.
    + apply Ascii.eqb_neq in E.
      destruct (split_once c s) as [h' t'] eqn:Es. split.
      * intros H. injection H as <- ->.
        destruct (proj1 (IH h') eq_refl) as [-> Hn]. split; [reflexivity |].
        intros [H | H]; [contradiction | exact (Hn H)].
      * intros [-> Hn].
        assert (Hs : (h', t') = (s, None)).
        { apply IH. split; [reflexivity |].
          intros Hc. apply Hn. right. exact Hc. }
        injection Hs as -> ->. reflexivity.
Qed.

Lemma endswith_iff (s suffix : str) :
  endswith s suffix = true <-> exists a, s = a ++ suffix.
Proof.
  induction s as [| x s IH]; cbn [endswith].
  - rewrite orb_false_r, str_eqb_eq. split.
    + intros <-. exists []. reflexivity.
    + intros (a & H). symmetry in H. apply app_eq_nil in H. symmetry. apply H.
  - rewrite orb_true_iff, str_eqb_eq, IH. split.
    + intros [<- | (a & ->)]; [exists []; reflexivity | exists (x :: a); reflexivity].
    + intros (a & H). destruct a as [| y a].
      * left. exact H.
      * right. injection H as _ ->. exists a. reflexivity.
Qed.

Lemma same_length_suffix (a b x y : str) :
  a ++ x = b ++ y -> length x = length y -> x = y.
Proof.
  revert b. induction a as [| c a IH]; intros b H Hlen.
  - destruct b as [| d b]; [exact H |].
    apply (f_equal (@length ascii)) in H. simpl in H.
    rewrite length_app in H. lia.
  - destruct b as [| d b].
    + apply (f_equal (@length ascii)) in H. simpl in H.
      rewrite length_app in H. lia.
    + injection H as _ H. apply (IH b H Hlen).
Qed.

Lemma endswith_other (stem ext suffix tail : str) (pre : str) :
  ext = pre ++ tail -> length tail = length suffix -> tail <> suffix ->
  endswith (stem ++ ext) suffix = false.
Proof.
  intros -> Hlen Hne. destruct (endswith _ suffix) eqn:E; [| reflexivity].
  apply endswith_iff in E. destruct E as (a & E).
  rewrite app_assoc in E. apply same_length_suffix in E; [| exact Hlen].
  contradiction.
Qed.

Lemma rfind_none (c : ascii) (s : str) : rfind c s = None <-> ~ In c s.
Proof.
  induction s as [| a s IH]; cbn [rfind]; [split; [intros _ [] | reflexivity] |].
  destruct (rfind c s) as [i |].
  - split; [discriminate |]. intros Hn. exfalso.
    assert (Hs : ~ In c s) by (intros H; apply Hn; right; exact H).
    apply IH in Hs. discriminate Hs.
  - destruct (Ascii.eqb a c) eqn:E.
    + apply Ascii.eqb_eq in E. subst. split; [discriminate |].
      intros Hn. exfalso. apply Hn. left. reflexivity.
    + apply Ascii.eqb_neq in E. split; [| reflexivity]. intros _ [H | H].
      * contradiction.
      * apply (proj1 IH eq_refl H).
Qed.

(** The last occurrence: nothing equal to [c] follows it. *)
Lemma rfind_last (c : ascii) (a b : str) :
  ~ In c b -> rfind c (a ++ c :: b) = Some (length a).
Proof.
  intros Hb. induction a as [| x a IH]; simpl.
  - rewrite (proj2 (rfind_none c b) Hb), Ascii.eqb_refl. reflexivity.
  - rewrite IH. reflexivity.
Qed.

Lemma rfind_some (c : ascii) (s : str) (i : nat) :
  rfind c s = Some i ->
  exists a b, s = a ++ c :: b /\ ~ In c b /\ length a = i.
Proof.
  revert i. induction s as [| x s IH]; intros i; cbn [rfind]; [discriminate |].
  destruct (rfind c s) as [j |] eqn:E.
  - intros H. injection H as <-.
    destruct (IH j eq_refl) as (a & b & -> & Hb & Hl).
    exists (x :: a), b. simpl. auto.
  - destruct (Ascii.eqb x c) eqn:Ex; [| discriminate].
    intros H. injection H as <-. apply Ascii.eqb_eq in Ex. subst x.
    exists [], s. split; [reflexivity |]. split; [| reflexivity].
    apply rfind_none. exact E.
Qed.

Lemma last_occurrence (c : ascii) (l : str) :
  In c l -> exists a b, l = a ++ c :: b /\ ~ In c b.
Proof.
  intros H. destruct (rfind c l) as [i |] eqn:E.
  - destruct (rfind_some c l i E) as (a & b & Hl & Hb & _). exists a, b. auto.
  - apply rfind_none in E. contradiction.
Qed.

Lemma splitext_app (p s e : str) : splitext p = (s, e) -> p = s ++ e.
Proof.
  unfold splitext. destruct (rfind extsep p) as [d |].
  - destruct (_ <=? d)%nat.
    + destruct (forallb _ _).
      * intros H. injection H as <- <-. symmetry. apply app_nil_r.
      * intros H. injection H as <- <-. symmetry. apply firstn_skipn.
    + intros H. injection H as <- <-. symmetry. apply app_nil_r.
  - intros H. injection H as <- <-. symmetry. apply app_nil_r.
Qed.

(** When nothing is split off, the name is returned whole. *)
Lemma splitext_no_ext (p s : str) : splitext p = (s, []) -> s = p.
Proof.
  intros H. apply splitext_app in H. rewrite app_nil_r in H. symmetry. exact H.
Qed.

Lemma splitext_prefix_in (p s e : str) (c : ascii) :
  splitext p = (s, e) -> In c s -> In c p.
Proof.
  intros H Hc. apply splitext_app in H. subst p. apply in_or_app. left. exact Hc.
Qed.

End PathLemmas.

Section ValidExt.

Import Paths.
Local Open Scope string_scope.
Local Open Scope list_scope.

(** X16: the argument check of [parse_args] looks at what follows the
    first dot of the whole name: a name is accepted (and returned
    unchanged) exactly when it is a dot-free part, a dot and one of the
    allowed extensions; a name without any dot raises [IndexError], not
    the argparse error. *)
Theorem valid_ext_accepts (opts : list str) (fname : str) :
  (valid_ext opts fname = Returned fname
   <-> exists stem ext,
         fname = stem ++ extsep :: ext /\ ~ In extsep stem /\ In ext opts)
  /\ (forall r, valid_ext opts fname = Returned r -> r = fname)
  /\ (valid_ext opts fname
      = Raised (Builtin (IndexError "list index out of range"))
      <-> ~ In extsep fname).
Proof.
  unfold valid_ext. destruct (split_once extsep fname) as [h [t |]] eqn:E.
  - apply split_once_some in E. destruct E as [-> Hn].
    split; [| split].
    + split.
      * intros H. exists h, t. split; [reflexivity |]. split; [exact Hn |].
        apply existsb_str_In. destruct (existsb (str_eqb t) opts);
          [reflexivity | discriminate H].
      * intros (stem & ext & H & Hs & Ho).
        assert (Hsplit : split_once extsep (stem ++ extsep :: ext)
                         = (stem, Some ext))
          by (apply split_once_some; auto).
        rewrite <- H in Hsplit.
        assert (Hmine : split_once extsep (h ++ extsep :: t) = (h, Some t))
          by (apply split_once_some; auto).
        rewrite Hmine in Hsplit. injection Hsplit as _ ->.
        apply existsb_str_In in Ho. rewrite Ho. reflexivity.
    + intros r. destruct (existsb (str_eqb t) opts); [| discriminate].
      intros H. injection H as <-. reflexivity.
    + split.
      * destruct (existsb (str_eqb t) opts); discriminate.
      * intros H. exfalso. apply H. apply in_or_app. right. left. reflexivity.
  - apply split_once_none in E. destruct E as [-> Hn].
    split; [| split].
    + split; [discriminate |].
      intros (stem & ext & H & _). exfalso. apply Hn. rewrite H.
      apply in_or_app. right. left. reflexivity.
    + discriminate.
    + split; [intros _; exact Hn | reflexivity].
Qed.

Variables MrImage NibImage Data : Type.
Variable load_mrtrix : str -> outcome MrImage.
Variable nib_load : str -> outcome NibImage.
Variable mr_data : MrImage -> Data.
Variable nib_get_fdata : NibImage -> Data.

(** X17: a file name that [parse_args] accepts is one that
    [load_generic] can dispatch: it never raises the "Invalid file
    extension" error on it; a name in .mif goes to [load_mrtrix] and a
    name in .nii or .nii.gz to [nib.load]. *)
Theorem accepted_names_are_loaded (fname : str) :
  valid_ext extensions fname = Returned fname ->
  exists stem ext,
    fname = stem ++ extsep :: ext
    /\ ((ext = lit "mif"
         /\ load_generic MrImage NibImage Data load_mrtrix nib_load mr_data
              nib_get_fdata fname
            = match load_mrtrix fname with
              | Returned img =>
                  Returned (Mrtrix MrImage NibImage img, mr_data img)
              | Raised e => Raised e
              end)
        \/ ((ext = lit "nii" \/ ext = lit "nii.gz")
            /\ load_generic MrImage NibImage Data load_mrtrix nib_load mr_data
                 nib_get_fdata fname
               = match nib_load fname with
                 | Returned img =>
                     Returned (Nifti MrImage NibImage img, nib_get_fdata img)
                 | Raised e => Raised e
                 end)).
Proof.
  intros H. apply (proj1 (valid_ext_accepts extensions fname)) in H.
  destruct H as (stem & ext & -> & _ & Hin). exists stem, ext.
  split; [reflexivity |]. unfold load_generic.
  destruct Hin as [<- | [<- | [<- | []]]].
  - left. split; [reflexivity |].
    replace (endswith (stem ++ extsep :: lit "mif") (lit ".mif")) with true;
      [reflexivity |].
    symmetry. apply endswith_iff. exists stem. reflexivity.
  - right. split; [left; reflexivity |].
    rewrite (endswith_other stem (extsep :: lit "nii") (lit ".mif")
               (lit ".nii") []) by (reflexivity || discriminate).
    replace (endswith (stem ++ extsep :: lit "nii") (lit ".nii")) with true;
      [reflexivity |].
    symmetry. apply endswith_iff. exists stem. reflexivity.
  - right. split; [right; reflexivity |].
    rewrite (endswith_other stem (extsep :: lit "nii.gz") (lit ".mif")
               (lit "i.gz") (lit ".ni")) by (reflexivity || discriminate).
    rewrite (endswith_other stem (extsep :: lit "nii.gz") (lit ".nii")
               (lit "i.gz") (lit ".ni")) by (reflexivity || discriminate).
    replace (endswith (stem ++ extsep :: lit "nii.gz") (lit ".nii.gz"))
      with true; [reflexivity |].
    symmetry. apply endswith_iff. exists stem. reflexivity.
Qed.

End ValidExt.

Section ValidExtExamples.

Import Paths.
Local Open Scope string_scope.
Local Open Scope list_scope.

Lemma accepted_names_are_loaded_witness :
  valid_ext extensions (lit "t1.nii.gz") = Returned (lit "t1.nii.gz")
  /\ exists stem ext,
       lit "t1.nii.gz" = stem ++ extsep :: ext
       /\ (ext = lit "mif" \/ ext = lit "nii" \/ ext = lit "nii.gz").
Proof.
  split; [reflexivity |].
  destruct (accepted_names_are_loaded unit unit unit
              (fun _ => Returned tt) (fun _ => Returned tt)
              (fun _ => tt) (fun _ => tt) (lit "t1.nii.gz") eq_refl)
    as (stem & ext & E & [[H _] | [H _]]);
    exists stem, ext; (split; [exact E | tauto]).
Defined.

End ValidExtExamples.

Section PureStem.

Import Paths.
Local Open Scope string_scope.
Local Open Scope list_scope.

Lemma skipn_past (a b : str) (c : ascii) :
  skipn (S (length a)) (a ++ c :: b) = b.
Proof. induction a as [| x a IH]; [reflexivity | exact IH]. Qed.

Lemma basename_no_sep (p : str) : ~ In sep (basename p).
Proof.
  unfold basename. destruct (rfind sep p) as [i |] eqn:E.
  - destruct (rfind_some sep p i E) as (a & b & -> & Hb & <-).
    rewrite skipn_past. exact Hb.
  - apply rfind_none. exact E.
Qed.

Lemma basename_of_dir (dir name : str) :
  (dir = [] \/ exists d, dir = d ++ [sep]) -> ~ In sep name ->
  basename (dir ++ name) = name.
Proof.
  intros [-> | (d & ->)] Hn; unfold basename.
  - simpl. rewrite (proj2 (rfind_none sep name) Hn). reflexivity.
  - rewrite <- app_assoc. simpl. rewrite (rfind_last sep d name Hn).
    apply skipn_past.
Qed.

(** One round of [splitext] on a name with a proper stem: the part from
    the last dot on is split off. *)
Lemma splitext_last_dot (stem mid seg : str) :
  stem <> [] -> ~ In extsep stem -> ~ In sep stem -> ~ In sep mid ->
  ~ In sep seg -> ~ In extsep seg ->
  splitext (stem ++ mid ++ extsep :: seg) = (stem ++ mid, extsep :: seg).
Proof.
  intros Hne Hd Hs Hm Hseg Hdseg. unfold splitext.
  rewrite app_assoc. rewrite (rfind_last extsep (stem ++ mid) seg Hdseg).
  assert (Hnosep : rfind sep ((stem ++ mid) ++ extsep :: seg) = None).
  { apply rfind_none. intros H. apply in_app_or in H.
    destruct H as [H | [H | H]].
    - apply in_app_or in H. tauto.
    - discriminate H.
    - contradiction. }
  rewrite Hnosep. cbn [Nat.leb skipn].
  rewrite firstn_app, Nat.sub_diag, firstn_all. cbn [firstn].
  rewrite app_nil_r.
  replace (forallb (fun a => Ascii.eqb a extsep) (stem ++ mid)) with false.
  - f_equal. rewrite skipn_app, Nat.sub_diag, skipn_all. reflexivity.
  - destruct stem as [| x stem]; [contradiction |]. simpl.
    assert (Ex : Ascii.eqb x extsep = false).
    { apply Ascii.eqb_neq. intros ->. apply Hd. left. reflexivity. }
    rewrite Ex. reflexivity.
Qed.

Lemma splitext_dot_free (stem : str) :
  ~ In extsep stem -> splitext stem = (stem, []).
Proof.
  intros H. unfold splitext. rewrite (proj2 (rfind_none extsep stem) H).
  reflexivity.
Qed.

(** Whenever [splitext] splits something off, a stem is left. *)
Lemma splitext_stem_nonempty (p s e : str) :
  splitext p = (s, e) -> e <> [] -> s <> [].
Proof.
  unfold splitext. destruct (rfind extsep p) as [d |].
  - destruct (_ <=? d)%nat.
    + destruct (forallb _ _) eqn:Ef.
      * intros H He. injection H as _ E2. exfalso. apply He. symmetry. exact E2.
      * intros H _ Hs. injection H as E1 _. rewrite E1, Hs, skipn_nil in Ef.
        discriminate Ef.
    + intros H He. injection H as _ E2. exfalso. apply He. symmetry. exact E2.
  - intros H He. injection H as _ E2. exfalso. apply He. symmetry. exact E2.
Qed.

(** The loop strips every extension from a name with a proper stem. *)
Lemma strip_all (stem : str) :
  stem <> [] -> ~ In extsep stem -> ~ In sep stem ->
  forall (n : nat) (rest : str) (fuel : nat),
    (length rest <= n)%nat ->
    ~ In sep rest ->
    (rest = [] \/ exists r, rest = extsep :: r) ->
    forall s e, splitext (stem ++ rest) = (s, e) ->
    (e <> [] -> (length s <= fuel)%nat) ->
    strip_extensions fuel s e = Some stem.
Proof.
  intros Hne Hd Hs. induction n as [| n IH];
    intros rest fuel Hlen Hrs Hhead s e Hsplit Hfuel.
  - destruct rest; [| simpl in Hlen; lia]. rewrite app_nil_r in Hsplit.
    rewrite (splitext_dot_free stem Hd) in Hsplit. injection Hsplit as <- <-.
    destruct fuel; reflexivity.
  - destruct Hhead as [-> | (r & ->)].
    + rewrite app_nil_r in Hsplit.
      rewrite (splitext_dot_free stem Hd) in Hsplit. injection Hsplit as <- <-.
      destruct fuel; reflexivity.
    + destruct (last_occurrence extsep (extsep :: r)) as (mid & seg & Hrest & Hseg);
        [left; reflexivity |].
      assert (Hmid : ~ In sep mid /\ ~ In sep seg).
      { split; intros H; apply Hrs; rewrite Hrest; apply in_or_app;
          [left; exact H | right; right; exact H]. }
      destruct Hmid as [Hmid Hsseg].
      rewrite Hrest in Hsplit.
      rewrite (splitext_last_dot stem mid seg Hne Hd Hs Hmid Hsseg Hseg) in Hsplit.
      injection Hsplit as <- <-.
      assert (Hfu : (length (stem ++ mid) <= fuel)%nat)
        by (apply Hfuel; discriminate).
      destruct fuel as [| fuel].
      { rewrite length_app in Hfu. destruct stem; [contradiction | simpl in Hfu; lia]. }
      cbn [strip_extensions].
      destruct (splitext (stem ++ mid)) as [s' e'] eqn:Es'.
      apply (IH mid fuel).
      * apply (f_equal (@length ascii)) in Hrest. rewrite length_app in Hrest.
        simpl in Hrest, Hlen. lia.
      * exact Hmid.
      * destruct mid as [| x mid]; [left; reflexivity |].
        right. exists mid. simpl in Hrest. injection Hrest as <- _. reflexivity.
      * exact Es'.
      * intros He'. pose proof (splitext_app _ _ _ Es') as Happ.
        apply (f_equal (@length ascii)) in Happ.
        rewrite (length_app s' e') in Happ. rewrite length_app in Happ, Hfu.
        destruct e' as [| a e']; [contradiction |]. cbn [length] in Happ. lia.
Qed.

(** X18: [pure_stem] drops the directory and every extension: for a path
    made of a directory part (empty, or ending in a slash), a non-empty
    name without dot or slash, and any run of extensions after it, the
    result is that name. *)
Theorem pure_stem_strips (dir stem rest : str) :
  (dir = [] \/ exists d, dir = d ++ [sep]) ->
  stem <> [] -> ~ In extsep stem -> ~ In sep stem ->
  ~ In sep rest ->
  (rest = [] \/ exists r, rest = extsep :: r) ->
  pure_stem (dir ++ stem ++ rest) = Some stem.
Proof.
  intros Hdir Hne Hd Hs Hrs Hhead. unfold pure_stem.
  rewrite (basename_of_dir dir (stem ++ rest) Hdir)
    by (intros H; apply in_app_or in H; tauto).
  destruct (splitext (stem ++ rest)) as [s e] eqn:E.
  apply (strip_all stem Hne Hd Hs (length rest) rest (length s) (le_n _)
           Hrs Hhead s e E).
  intros _. apply le_n.
Qed.

Lemma strip_extensions_total (fuel : nat) (stem ext : str) :
  (ext <> [] -> (length stem <= fuel)%nat /\ stem <> []) ->
  (ext = [] -> splitext stem = (stem, [])) ->
  ~ In sep stem ->
  exists s, strip_extensions fuel stem ext = Some s
            /\ splitext s = (s, []) /\ ~ In sep s.
Proof.
  revert stem ext. induction fuel as [| fuel IH]; intros stem ext Hfuel Hext Hs.
  - destruct ext as [| x ext].
    + exists stem. split; [reflexivity |]. split; [apply Hext; reflexivity | exact Hs].
    + destruct (Hfuel ltac:(discriminate)) as [Hl Hn].
      destruct stem; [contradiction | simpl in Hl; lia].
  - destruct ext as [| x ext].
    + exists stem. split; [reflexivity |]. split; [apply Hext; reflexivity | exact Hs].
    + destruct (Hfuel ltac:(discriminate)) as [Hl Hn].
      cbn [strip_extensions].
      destruct (splitext stem) as [s' e'] eqn:Es'.
      apply IH.
      * intros He'. pose proof (splitext_app _ _ _ Es') as Happ.
        apply (f_equal (@length ascii)) in Happ. rewrite !length_app in Happ.
        split.
        -- destruct e'; [contradiction |]. simpl in Happ. lia.
        -- exact (splitext_stem_nonempty _ _ _ Es' He').
      * intros ->. pose proof (splitext_no_ext _ _ Es') as ->. exact Es'.
      * intros H. apply Hs. eapply splitext_prefix_in; eassumption.
Qed.

(** X19: [pure_stem] returns on every path (the loop ends), and what it
    returns has no slash and no extension left to split off; applying
    [pure_stem] to it changes nothing. *)
Theorem pure_stem_total (pathstr : str) :
  exists s,
    pure_stem pathstr = Some s
    /\ ~ In sep s
    /\ splitext s = (s, [])
    /\ pure_stem s = Some s.
Proof.
  unfold pure_stem at 1.
  destruct (splitext (basename pathstr)) as [stem ext] eqn:E.
  assert (Hs : ~ In sep stem).
  { intros H. apply (basename_no_sep pathstr).
    eapply splitext_prefix_in; eassumption. }
  destruct (strip_extensions_total (length stem) stem ext) as (s & Es & Hf & Hn).
  - intros He. split; [apply le_n |].
    exact (splitext_stem_nonempty _ _ _ E He).
  - intros ->. pose proof (splitext_no_ext _ _ E) as ->. exact E.
  - exact Hs.
  - exists s. split; [exact Es |]. split; [exact Hn |]. split; [exact Hf |].
    unfold pure_stem, basename. rewrite (proj2 (rfind_none sep s) Hn).
    rewrite Hf. destruct (length s); reflexivity.
Qed.

End PureStem.

Section PureStemExamples.

Import Paths.
Local Open Scope string_scope.
Local Open Scope list_scope.

Lemma pure_stem_strips_witness :
  pure_stem (lit "atlases/" ++ lit "cst_left" ++ lit ".nii.gz")
  = Some (lit "cst_left").
Proof.
  apply pure_stem_strips.
  - right. exists (lit "atlases"). reflexivity.
  - discriminate.
  - intros H. cbv in H. repeat (destruct H as [H | H]; [discriminate H |]).
    exact H.
  - intros H. cbv in H. repeat (destruct H as [H | H]; [discriminate H |]).
    exact H.
  - intros H. cbv in H. repeat (destruct H as [H | H]; [discriminate H |]).
    exact H.
  - right. exists (lit "nii.gz"). reflexivity.
Defined.

End PureStemExamples.

Section DecimateProperties.

Import Py Virtue Decimate.
Local Open Scope string_scope.
Local Open Scope list_scope.

(** X20: [decimate_surf] of virtue.py cannot run: the module never imports
    vtk, so its first statement raises [NameError] for [vtkSphereSource]
    on every call, before any library call is made; only with the vtk
    names added to the globals does that statement pass and the rest of
    the function run. *)
Theorem decimate_surf_raises_name_error (A : Type) (rest : pyobj -> traced A) :
  decimate_surf rest = ([], Raise (NameError "vtkSphereSource"))
  /\ decimate_surf_in (with_vtk module_globals) rest = rest (POther "class").
Proof.
  split.
  - reflexivity.
  - unfold decimate_surf_in, tbind, tlift. cbn.
    destruct (rest (POther "class")) as [log r]. reflexivity.
Qed.

End DecimateProperties.

(** * Properties in double precision *)

(** ** Facts about doubles *)

Section Binary64.

Import FloatClass PrimFloat SpecFloat FloatOps FloatAxioms Np64 Geometry64.
Local Open Scope Z_scope.
Local Open Scope float_scope.

(** Only the two zeros compare equal to 0. *)
Lemma is_zero_inv (x : float) : is_zero x = true -> x = 0 \/ x = -0.
Proof.
  unfold is_zero. rewrite eqb_spec. intros H.
  rewrite <- (SF2Prim_Prim2SF x).
  change (Prim2SF 0) with (S754_zero false) in H.
  destruct (Prim2SF x) as [s | s | | s m e]; try destruct s;
    try discriminate H; [right | left]; reflexivity.
Qed.

(** A product of which one factor is a zero or NaN is a zero or NaN. *)
Lemma mul_zero_or_nan_l (a c : float) : zero_or_nan a -> zero_or_nan (a * c).
Proof.
  unfold zero_or_nan. rewrite <- (SF2Prim_Prim2SF (a * c)), mul_spec.
  intros [-> | [-> | ->]];
    destruct (Prim2SF c) as [s | s | | s m e]; try destruct s; vm_compute; auto.
Qed.

Lemma mul_zero_or_nan_r (a c : float) : zero_or_nan c -> zero_or_nan (a * c).
Proof.
  unfold zero_or_nan. rewrite <- (SF2Prim_Prim2SF (a * c)), mul_spec.
  intros [-> | [-> | ->]];
    destruct (Prim2SF a) as [s | s | | s m e]; try destruct s; vm_compute; auto.
Qed.



(** A point at the origin, whatever the signs of its zeros: radius 0 and
    an undefined elevation, in the batch form and in the componentwise
    form. *)
Lemma origin_row (L : libm) (p : point3) :
  at_origin p = true ->
  radius_of (row3 p) = 0 /\ elevation_of L (row3 p) = nan
  /\ radius3 p = 0 /\ elevation3 L p = nan.
Proof.
  destruct p as [[x y] z]. unfold at_origin. intros H.
  apply andb_true_iff in H. destruct H as [H Hz].
  apply andb_true_iff in H. destruct H as [Hx Hy].
  destruct (is_zero_inv x Hx) as [-> | ->], (is_zero_inv y Hy) as [-> | ->],
    (is_zero_inv z Hz) as [-> | ->]; repeat split; reflexivity.
Qed.

(** On a list of points that are at the origin or regular, the elevation
    is NaN and the radius is 0 exactly at the origin. *)
Lemma origin_or_regular (L : libm) (pts : list point3) :
  Forall (fun p => at_origin p = false -> regular L p) pts ->
  Forall (fun p => isnan (elevation_of L (row3 p)) = at_origin p) pts
  /\ Forall (fun p => is_zero (radius_of (row3 p)) = at_origin p) pts.
Proof.
  intros H. split; (eapply Forall_impl; [| exact H]); intros p Hp;
    destruct (at_origin p) eqn:E.
  - destruct (origin_row L p E) as (_ & -> & _). reflexivity.
  - exact (proj2 (Hp E)).
  - destruct (origin_row L p E) as (-> & _). reflexivity.
  - exact (proj1 (Hp E)).
Qed.

End Binary64.

(** ** Arrays of doubles *)

Section Arrays64.

Import PrimFloat Np64 Geometry64.
Local Open Scope float_scope.



Lemma zeros_map_64 {A : Type} (ps : list A) (ncols : nat) :
  zeros (length ps) ncols = map (fun _ => repeat 0 ncols) ps.
Proof.
  unfold zeros. induction ps as [| p ps IH]; simpl; [reflexivity |].
  rewrite IH. reflexivity.
Qed.

Lemma column_map_64 {A : Type} (j : nat) (r : A -> list float) (ps : list A) :
  column j (map r ps) = map (fun p => nth j (r p) 0) ps.
Proof. unfold column. apply map_map. Qed.

Lemma set_column_map_64 {A : Type} (j : nat) (f : A -> float)
  (r : A -> list float) (ps : list A) :
  set_column j (map f ps) (map r ps) = map (fun p => set_nth j (f p) (r p)) ps.
Proof.
  induction ps as [| p ps IH]; simpl; [reflexivity |]. rewrite IH. reflexivity.
Qed.

Lemma sum_axis1_map_64 {A : Type} (r : A -> list float) (ps : list A) :
  sum_axis1 (map r ps) = map (fun p => fold_left f_add (r p) 0) ps.
Proof. unfold sum_axis1. apply map_map. Qed.

(** Masks computed from a list, against a test on the elements of the
    list. *)
Lemma where_from_agree {A : Type} (q : float -> bool) (f : A -> float)
  (t : A -> bool) (l : list A) (i : nat) :
  Forall (fun a => q (f a) = t a) l ->
  where_from i q (map f l)
  = map fst (filter (fun ia => t (snd ia)) (combine (seq i (length l)) l)).
Proof.
  intros H. revert i. induction H as [| a l Ha _ IH]; intros i; [reflexivity |].
  cbn [map where_from length seq combine filter snd]. rewrite Ha.
  destruct (t a); cbn [map fst]; rewrite IH; reflexivity.
Qed.

Lemma where_from_count {A : Type} (q : float -> bool) (f : A -> float)
  (t : A -> bool) (l : list A) (i : nat) :
  Forall (fun a => q (f a) = t a) l ->
  length (where_from i q (map f l)) = length (filter t l).
Proof.
  intros H. revert i. induction H as [| a l Ha _ IH]; intros i; [reflexivity |].
  cbn [map where_from filter]. rewrite Ha.
  destruct (t a); cbn [length]; rewrite IH; reflexivity.
Qed.

Lemma count_agree {A : Type} (q : float -> bool) (f : A -> float)
  (t : A -> bool) (l : list A) :
  Forall (fun a => q (f a) = t a) l -> count q (map f l) = length (filter t l).
Proof.
  intros H. unfold count. induction H as [| a l Ha _ IH]; [reflexivity |].
  cbn [map filter]. rewrite Ha. destruct (t a); cbn [length]; rewrite IH;
    reflexivity.
Qed.

Lemma existsb_agree {A : Type} (q : float -> bool) (f : A -> float)
  (t : A -> bool) (l : list A) :
  Forall (fun a => q (f a) = t a) l ->
  existsb q (map f l) = negb (Nat.eqb (length (filter t l)) 0).
Proof.
  intros H. induction H as [| a l Ha _ IH]; [reflexivity |].
  cbn [map filter existsb]. rewrite Ha, IH. destruct (t a); reflexivity.
Qed.

(** The comparison of an index array with itself, as the [assert] of
    [c2s] makes it. *)
Lemma where_tuples_equal_refl (ixs : list nat) :
  where_tuples_equal ixs ixs
  = match ixs with
    | [] => Ok false
    | [_] => Ok true
    | _ => Raise (ValueError ambiguous_truth_message)
    end.
Proof.
  unfold where_tuples_equal, bcast. rewrite Nat.eqb_refl, zipM_pure.
  destruct ixs as [| a [| b ixs]]; cbn [map2 bind truth_value];
    [reflexivity | rewrite Nat.eqb_refl; reflexivity | reflexivity].
Qed.

(** The batch form of [c2s], row by row. *)
Lemma c2s_radius_elevation_map_64 {A : Type} (L : libm)
  (r : A -> list float) (ps : list A) :
  Utils64.c2s_radius_elevation L (map r ps)
  = map (fun p => [radius_of (r p); elevation_of L (r p); 0]) ps.
Proof.
  unfold Utils64.c2s_radius_elevation.
  rewrite length_map, zeros_map_64, sum_axis1_map_64.
  rewrite !map_map, !set_column_map_64, !column_map_64, map2_diag, map_map,
    set_column_map_64.
  apply map_ext. intros p. reflexivity.
Qed.

Lemma c2s_azimuth_map_64 {A : Type} (L : libm) (r : A -> list float)
  (f g : A -> float) (ps : list A) :
  Utils64.c2s_azimuth L (map r ps) (map (fun p => [f p; g p; 0]) ps)
  = map (fun p => [f p; g p; azimuth_of L (r p)]) ps.
Proof.
  unfold Utils64.c2s_azimuth.
  rewrite !column_map_64, map2_diag, set_column_map_64.
  apply map_ext. intros p. reflexivity.
Qed.

(** The rows the batch form returns, and what it prints, by the number of
    points at the origin, when every other point is regular. *)
Lemma c2s_batch_by_origins (L : libm) (pts : list point3) :
  Forall (fun p => at_origin p = false -> regular L p) pts ->
  Utils64.c2s L [matrix3 pts]
  = match length (filter at_origin pts) with
    | O =>
        ([], Ok (VArray (Arr2 3 (map (fun p =>
           [radius_of (row3 p); elevation_of L (row3 p); azimuth_of L (row3 p)])
           pts))))
    | S O =>
        ([Utils.nan_message 1], Ok (VArray (Arr2 3 (map (fun p =>
           [radius_of (row3 p);
            if at_origin p then Utils64.mock_angle else elevation_of L (row3 p);
            azimuth_of L (row3 p)]) pts))))
    | S (S k) =>
        ([Utils.nan_message (S (S k))],
         Raise (ValueError ambiguous_truth_message))
    end.
Proof.
  intros H. destruct (origin_or_regular L pts H) as [En Ez].
  unfold matrix3, Utils64.c2s.
  rewrite c2s_radius_elevation_map_64, !column_map_64. cbn [nth].
  rewrite (existsb_agree isnan _ at_origin pts En).
  rewrite (count_agree isnan _ at_origin pts En).
  unfold where_.
  rewrite (where_from_agree isnan _ at_origin pts 0 En).
  rewrite (where_from_agree is_zero _ at_origin pts 0 Ez).
  rewrite where_tuples_equal_refl.
  pose proof (where_from_count isnan _ at_origin pts 0 En) as Hlen.
  rewrite (where_from_agree isnan _ at_origin pts 0 En) in Hlen.
  destruct (length (filter at_origin pts)) as [| [| k]].
  - cbn [Nat.eqb negb]. rewrite c2s_azimuth_map_64. reflexivity.
  - cbn [Nat.eqb negb].
    destruct (map fst _) as [| i [| j ixs]]; try discriminate Hlen.
    rewrite map_map, set_column_map_64. cbn [set_nth].
    rewrite (c2s_azimuth_map_64 L row3 (fun p => radius_of (row3 p))
               (fun p => if isnan (elevation_of L (row3 p))
                         then Utils64.mock_angle else elevation_of L (row3 p))).
    do 4 f_equal. apply map_ext_in. intros p Hp.
    rewrite Forall_forall in En. rewrite (En p Hp). reflexivity.
  - cbn [Nat.eqb negb].
    destruct (map fst _) as [| i [| j ixs]]; try discriminate Hlen.
    reflexivity.
Qed.

(** The comparison holds only for two arrays of one and the same index. *)
Lemma where_tuples_equal_true (a b : list nat) :
  where_tuples_equal a b = Ok true -> exists k : nat, a = [k] /\ b = [k].
Proof.
  unfold where_tuples_equal, bcast.
  destruct (Nat.eqb (length a) (length b)) eqn:El.
  - rewrite zipM_pure.
    destruct a as [| i [| i' a]], b as [| j [| j' b]]; try discriminate El;
      cbn [map2 bind truth_value]; try discriminate.
    intros H. injection H as H. apply Nat.eqb_eq in H. subst j.
    exists i. split; reflexivity.
  - destruct a as [| i [| i' a]], b as [| j [| j' b]]; try discriminate El;
      rewrite ?mapM_pure; cbn [map bind truth_value]; discriminate.
Qed.

Lemma where_from_length (q : float -> bool) (xs : list float) (i : nat) :
  length (where_from i q xs) = count q xs.
Proof.
  unfold count. revert i. induction xs as [| x xs IH]; intros i; [reflexivity |].
  cbn [where_from filter]. destruct (q x); cbn [length]; rewrite IH; reflexivity.
Qed.

Lemma existsb_false_count {A : Type} (q : float -> bool) (f : A -> float)
  (l : list A) :
  existsb q (map f l) = false ->
  Forall (fun a => q (f a) = false) l /\ count q (map f l) = 0%nat.
Proof.
  unfold count. induction l as [| a l IH]; cbn [map existsb filter];
    [intros _; split; [constructor | reflexivity] |].
  intros H. apply orb_false_iff in H. destruct H as [Ha H].
  destruct (IH H) as [F C]. rewrite Ha. split; [constructor; assumption | exact C].
Qed.




End Arrays64.

(** ** Points at the origin, in double precision *)

Section OriginElevation.

Import PrimFloat Np64 Geometry64 Examples64.
Local Open Scope string_scope.
Local Open Scope float_scope.




(** A point need not be at the origin to be treated like it: the squares
    of coordinates below 2^-538 are rounded to 0, so the radius is 0 and
    the elevation NaN. *)
Remark c2s_underflow :
  at_origin (0x1p-600, 0, 0) = false
  /\ radius_of (row3 (0x1p-600, 0, 0)) = 0
  /\ forall L : libm, elevation_of L (row3 (0x1p-600, 0, 0)) = nan.
Proof. repeat split. Qed.

(** X11: when two or more of the points of an N x 3 array are at the
    origin (every other row having a radius other than 0 and an elevation
    other than NaN), [c2s] of utils.py prints their number and then
    raises [ValueError] from the [assert] that compares the two index
    arrays with [==]; no array is returned. *)
Theorem c2s_batch_several_origins (L : libm) (pts : list point3) :
  (2 <= length (filter at_origin pts))%nat ->
  Forall (fun p => at_origin p = false -> regular L p) pts ->
  Utils64.c2s L [matrix3 pts]
  = ([Utils.nan_message (length (filter at_origin pts))],
     Raise (ValueError ambiguous_truth_message)).
Proof.
  intros H2 H. rewrite (c2s_batch_by_origins L pts H).
  destruct (length (filter at_origin pts)) as [| [| k]]; [lia | lia |].
  reflexivity.
Qed.

Lemma c2s_batch_several_origins_witness :
  (2 <= length (filter at_origin two_origins))%nat
  /\ Forall (fun p => at_origin p = false -> regular libm_table p)
       two_origins
  /\ Utils64.c2s libm_table [matrix3 two_origins]
     = ([Utils.nan_message 2], Raise (ValueError ambiguous_truth_message)).
Proof.
  assert (H1 : (2 <= length (filter at_origin two_origins))%nat)
    by (vm_compute; apply le_n).
  assert (H2 : Forall (fun p => at_origin p = false -> regular libm_table p)
                 two_origins).
  { repeat constructor; try discriminate; reflexivity. }
  split; [exact H1 |]. split; [exact H2 |].
  exact (c2s_batch_several_origins libm_table
           two_origins H1 H2).
Defined.

(** X21: the N x 3 array form of [c2s] of utils.py never returns a NaN
    elevation, whatever the doubles in the array.  When it returns, every
    row holds the radius, the elevation (0.1 in place of NaN) and the
    azimuth of its point, and either no elevation was NaN and nothing was
    printed, or exactly one was, exactly one radius was 0, and the line
    printed carries the count 1.  In every other case it raises. *)
Theorem c2s_batch_returns_no_nan (L : libm) (pts : list point3)
  (out : list string) (rows : list (list float)) :
  Utils64.c2s L [matrix3 pts] = (out, Ok (VArray (Arr2 3 rows))) ->
  rows = map (fun p =>
           [radius_of (row3 p);
            if isnan (elevation_of L (row3 p)) then Utils64.mock_angle
            else elevation_of L (row3 p);
            azimuth_of L (row3 p)]) pts
  /\ Forall (fun row => isnan (nth 1 row 0) = false) rows
  /\ (out = []
        /\ count isnan (map (fun p => elevation_of L (row3 p)) pts) = 0%nat
      \/ out = [Utils.nan_message 1]
         /\ count isnan (map (fun p => elevation_of L (row3 p)) pts) = 1%nat
         /\ count is_zero (map (fun p => radius_of (row3 p)) pts) = 1%nat).
Proof.
  unfold matrix3, Utils64.c2s.
  rewrite c2s_radius_elevation_map_64, !column_map_64. cbn [nth].
  assert (Hrows : forall rows',
    rows' = map (fun p =>
              [radius_of (row3 p);
               if isnan (elevation_of L (row3 p)) then Utils64.mock_angle
               else elevation_of L (row3 p);
               azimuth_of L (row3 p)]) pts ->
    Forall (fun row => isnan (nth 1 row 0) = false) rows').
  { intros rows' ->. apply Forall_map. apply Forall_forall. intros p _.
    cbn [nth]. destruct (isnan (elevation_of L (row3 p))) eqn:E;
      [reflexivity | exact E]. }
  destruct (existsb isnan _) eqn:En.
  - destruct (where_tuples_equal _ _) as [[|] | e] eqn:Ew; intros H;
      try discriminate H.
    injection H as <- <-.
    assert (Er : Utils64.c2s_azimuth L (map row3 pts)
                   (set_column 1
                      (map (fun x => if isnan x then Utils64.mock_angle else x)
                         (map (fun p => elevation_of L (row3 p)) pts))
                      (map (fun p => [radius_of (row3 p);
                                      elevation_of L (row3 p); 0]) pts))
                 = map (fun p =>
                     [radius_of (row3 p);
                      if isnan (elevation_of L (row3 p)) then Utils64.mock_angle
                      else elevation_of L (row3 p);
                      azimuth_of L (row3 p)]) pts).
    { rewrite map_map, set_column_map_64. cbn [set_nth].
      apply (c2s_azimuth_map_64 L row3 (fun p => radius_of (row3 p))
               (fun p => if isnan (elevation_of L (row3 p))
                         then Utils64.mock_angle else elevation_of L (row3 p))). }
    split; [exact Er |]. split; [apply Hrows; exact Er |].
    right. apply where_tuples_equal_true in Ew. destruct Ew as (k & E1 & E2).
    unfold where_ in E1, E2.
    apply (f_equal (@length nat)) in E1, E2.
    rewrite where_from_length in E1, E2.
    rewrite E1, E2. repeat split.
  - intros H. injection H as <- <-.
    destruct (existsb_false_count isnan _ pts En) as [F C].
    assert (Er : Utils64.c2s_azimuth L (map row3 pts)
                   (map (fun p => [radius_of (row3 p);
                                   elevation_of L (row3 p); 0]) pts)
                 = map (fun p =>
                     [radius_of (row3 p);
                      if isnan (elevation_of L (row3 p)) then Utils64.mock_angle
                      else elevation_of L (row3 p);
                      azimuth_of L (row3 p)]) pts).
    { rewrite (c2s_azimuth_map_64 L row3 (fun p => radius_of (row3 p))
                 (fun p => elevation_of L (row3 p))).
      apply map_ext_in. intros p Hp. rewrite Forall_forall in F.
      rewrite (F p Hp). reflexivity. }
    split; [exact Er |]. split; [apply Hrows; exact Er |].
    left. split; [reflexivity | exact C].
Qed.

Lemma c2s_batch_returns_no_nan_witness :
  Utils64.c2s libm_table [matrix3 one_origin]
  = ([Utils.nan_message 1],
     Ok (VArray (Arr2 3 [[1; 0; 0]; [0; Utils64.mock_angle; 0]])))
  /\ Forall (fun row => isnan (nth 1 row 0) = false)
       [[1; 0; 0]; [0; Utils64.mock_angle; 0]].
Proof.
  assert (H : Utils64.c2s libm_table [matrix3 one_origin]
              = ([Utils.nan_message 1],
                 Ok (VArray (Arr2 3 [[1; 0; 0]; [0; Utils64.mock_angle; 0]]))))
    by reflexivity.
  split; [exact H |].
  exact (proj1 (proj2 (c2s_batch_returns_no_nan libm_table one_origin _ _ H))).
Defined.

(** X5: the two copies of [c2s] agree whenever the one of utils.py prints
    nothing: on every tuple of arguments, if no NaN line is printed, the
    result (or the exception) is that of [c2s] of virtue.py. *)
Theorem c2s_copies_agree (L : libm) (args : list ndarray) :
  fst (Utils64.c2s L args) = [] ->
  snd (Utils64.c2s L args) = Virtue64.c2s L args.
Proof.
  destruct args as [| a [| b [| c [| d args]]]]; try (intros _; reflexivity).
  destruct a as [x | xs | n rows]; try (intros _; reflexivity).
  destruct n as [| [| [| [| n]]]]; try (intros _; reflexivity).
  unfold Utils64.c2s, Virtue64.c2s.
  destruct (existsb isnan (column 1 (Utils64.c2s_radius_elevation L rows))).
  - destruct (where_tuples_equal _ _) as [[|] | e]; discriminate.
  - intros _. reflexivity.
Qed.

Lemma c2s_copies_agree_witness :
  fst (Utils64.c2s libm_table [matrix3 two_regular]) = []
  /\ snd (Utils64.c2s libm_table [matrix3 two_regular])
     = Ok (VArray (Arr2 3 [[2; 0; 0]; [1; pi_2; 0]]))
  /\ Virtue64.c2s libm_table [matrix3 two_regular]
     = Ok (VArray (Arr2 3 [[2; 0; 0]; [1; pi_2; 0]])).
Proof.
  assert (H : fst (Utils64.c2s libm_table [matrix3 two_regular]) = [])
    by reflexivity.
  split; [exact H |]. split; [reflexivity |].
  rewrite <- (c2s_copies_agree libm_table [matrix3 two_regular] H).
  reflexivity.
Defined.

End OriginElevation.

(** ** The round trip and the unit sphere, in double precision *)

Section RoundTrip64.

Import PrimFloat Np64 Geometry64 Examples64.
Local Open Scope string_scope.
Local Open Scope float_scope.


(** X22: at the pole el = 0 the azimuth is lost, whatever the radius, the
    azimuth and the mathematical library: sin 0 = 0 makes the first two
    coordinates zeros (or NaN), and [c2s] after [s2c] returns an azimuth
    that is 0, -0, PI, -PI or NaN. *)
Theorem c2s_after_s2c_pole_azimuth (L : libm) (r az : float) :
  exists rho el az' : float,
    round_trip L [scalar r; scalar 0; scalar az]
    = ([], Ok (VTuple3 (scalar rho) (scalar el) (scalar az')))
    /\ (az' = 0 \/ az' = -0 \/ az' = pi \/ az' = - pi \/ az' = nan).
Proof.
  assert (Es : Utils64.s2c L [scalar r; scalar 0; scalar az]
               = Ok (VTuple3 (scalar (r * 0 * f_cos L az))
                             (scalar (r * 0 * f_sin L az))
                             (scalar (r * 1)))) by reflexivity.
  unfold round_trip. rewrite Es. clear Es.
  assert (Hz : zero_or_nan (r * 0))
    by (apply mul_zero_or_nan_r; left; reflexivity).
  pose proof (mul_zero_or_nan_l _ (f_cos L az) Hz) as Hx.
  pose proof (mul_zero_or_nan_l _ (f_sin L az) Hz) as Hy.
  exists (radius3 (r * 0 * f_cos L az, r * 0 * f_sin L az, r * 1)),
    (elevation3 L (r * 0 * f_cos L az, r * 0 * f_sin L az, r * 1)),
    (f_arctan2 L (r * 0 * f_sin L az) (r * 0 * f_cos L az)).
  split; [reflexivity |].
  destruct Hx as [-> | [-> | ->]], Hy as [-> | [-> | ->]]; vm_compute; auto.
Qed.





End RoundTrip64.

(** ** The unit sphere *)

Section UnitSphere.

Local Open Scope string_scope.
Local Open Scope R_scope.


End UnitSphere.

(** ** A flat component *)

Section FlatComponent.

Import Virtue Examples Examples2.
Local Open Scope string_scope.


End FlatComponent.
